(** * MiroFish [backend/app/utils/file_parser.py]: text extraction and chunking

    A shallow embedding of the module's three pieces
      - [_read_text_with_fallback]  (the encoding fallback chain),
      - [FileParser]                (format dispatch and batch extraction),
      - [split_text_into_chunks]    (the boundary-aware chunker),
    followed by the properties established about them.

    Python values are represented as follows.
      - [str]   : a list of Unicode code points ([pystr]); [len] is the list
                  length, so a CJK character counts for one, as in Python.
      - [bytes] : a list of [Byte.byte].
      - [int]   : [Z] (Python integers are unbounded).
      - raising : the [result] type, [Err e] standing for a raised exception
                  of class [Exception]. *)

From Stdlib Require Import ZArith NArith List Bool Lia.
From Stdlib.Strings Require Import String Ascii Byte.
From Stdlib Require DecimalString.
Import ListNotations.

Local Open Scope Z_scope.

(* ================================================================== *)
(** ** Python runtime: strings *)

Module Py.

Definition codepoint := N.
Definition pystr := list codepoint.
Definition bytes := list byte.

Definition len (s : pystr) : Z := Z.of_nat (List.length s).

Definition REPLACEMENT : codepoint := 0xFFFD%N.

(** *** The UTF-8 codec

    [utf8_decode false] is [bytes.decode('utf-8')] (strict: [None] stands for
    [UnicodeDecodeError]); [utf8_decode true] is
    [bytes.decode('utf-8', errors='replace')].  On an ill-formed sequence the
    replacing decoder emits one U+FFFD for the longest well-formed prefix of
    the sequence (at least the lead byte) and resumes at the offending
    byte; a sequence cut short by the end of the input yields one U+FFFD. *)

Definition is_cont (b : N) : bool := ((0x80 <=? b) && (b <=? 0xBF))%N.

(** Second byte of a three-byte sequence: E0 needs A0..BF, ED needs 80..9F. *)
Definition second_ok3 (b0 b1 : N) : bool :=
  (is_cont b1 &&
   negb (if b1 <? 0xA0 then b0 =? 0xE0 else b0 =? 0xED))%N.

(** Second byte of a four-byte sequence: F0 needs 90..BF, F4 needs 80..8F. *)
Definition second_ok4 (b0 b1 : N) : bool :=
  (is_cont b1 &&
   negb (if b1 <? 0x90 then b0 =? 0xF0 else b0 =? 0xF4))%N.

Definition low6 (b : N) : N := N.land b 0x3F.

Definition cp2 (b0 b1 : N) : codepoint :=
  N.lor (N.shiftl (N.land b0 0x1F) 6) (low6 b1).
Definition cp3 (b0 b1 b2 : N) : codepoint :=
  N.lor (N.shiftl (N.land b0 0x0F) 12)
        (N.lor (N.shiftl (low6 b1) 6) (low6 b2)).
Definition cp4 (b0 b1 b2 b3 : N) : codepoint :=
  N.lor (N.shiftl (N.land b0 0x07) 18)
        (N.lor (N.shiftl (low6 b1) 12)
               (N.lor (N.shiftl (low6 b2) 6) (low6 b3))).

Definition emit (c : codepoint) (k : option pystr) : option pystr :=
  option_map (cons c) k.

(** What the error handler does with the rest of the decoding. *)
Definition bad (replace : bool) (k : option pystr) : option pystr :=
  if replace then emit REPLACEMENT k else None.

Fixpoint utf8_decode (replace : bool) (bs : bytes) {struct bs} : option pystr :=
  match bs with
  | [] => Some []
  | x0 :: t0 =>
    let b0 := Byte.to_N x0 in
    if (b0 <? 0x80)%N then emit b0 (utf8_decode replace t0)
    else if (b0 <? 0xC2)%N then bad replace (utf8_decode replace t0)
    else if (b0 <? 0xE0)%N then
      match t0 with
      | [] => bad replace (Some [])
      | x1 :: t1 =>
        let b1 := Byte.to_N x1 in
        if is_cont b1 then emit (cp2 b0 b1) (utf8_decode replace t1)
        else bad replace (utf8_decode replace t0)
      end
    else if (b0 <? 0xF0)%N then
      match t0 with
      | [] => bad replace (Some [])
      | x1 :: t1 =>
        let b1 := Byte.to_N x1 in
        if second_ok3 b0 b1 then
          match t1 with
          | [] => bad replace (Some [])
          | x2 :: t2 =>
            let b2 := Byte.to_N x2 in
            if is_cont b2 then emit (cp3 b0 b1 b2) (utf8_decode replace t2)
            else bad replace (utf8_decode replace t1)
          end
        else bad replace (utf8_decode replace t0)
      end
    else if (b0 <? 0xF5)%N then
      match t0 with
      | [] => bad replace (Some [])
      | x1 :: t1 =>
        let b1 := Byte.to_N x1 in
        if second_ok4 b0 b1 then
          match t1 with
          | [] => bad replace (Some [])
          | x2 :: t2 =>
            let b2 := Byte.to_N x2 in
            if is_cont b2 then
              match t2 with
              | [] => bad replace (Some [])
              | x3 :: t3 =>
                let b3 := Byte.to_N x3 in
                if is_cont b3 then
                  emit (cp4 b0 b1 b2 b3) (utf8_decode replace t3)
                else bad replace (utf8_decode replace t2)
              end
            else bad replace (utf8_decode replace t1)
          end
        else bad replace (utf8_decode replace t0)
      end
    else bad replace (utf8_decode replace t0)
  end.

Definition decode_utf8_strict (data : bytes) : option pystr :=
  utf8_decode false data.

Definition decode_utf8_replace (data : bytes) : pystr :=
  match utf8_decode true data with
  | Some s => s
  | None => []
  end.

(** A string literal of the source file: the code points of a UTF-8 encoded
    Rocq string. *)
Definition lit (s : string) : pystr :=
  decode_utf8_replace (list_byte_of_string s).

(** *** [str] methods and slicing *)

(** [str.isspace] on one character: the code points CPython treats as
    whitespace (what [str.strip()] without argument removes). *)
Definition is_space (c : codepoint) : bool :=
  (((0x09 <=? c) && (c <=? 0x0D)) || ((0x1C <=? c) && (c <=? 0x20)) ||
   (c =? 0x85) || (c =? 0xA0) || (c =? 0x1680) ||
   ((0x2000 <=? c) && (c <=? 0x200A)) ||
   (c =? 0x2028) || (c =? 0x2029) || (c =? 0x202F) || (c =? 0x205F) ||
   (c =? 0x3000))%N.

Fixpoint lstrip (s : pystr) : pystr :=
  match s with
  | [] => []
  | c :: s' => if is_space c then lstrip s' else s
  end.

Definition rstrip (s : pystr) : pystr := rev (lstrip (rev s)).

Definition strip (s : pystr) : pystr := rstrip (lstrip s).

(** Truth value of a string: non-empty. *)
Definition truthy (s : pystr) : bool :=
  match s with [] => false | _ :: _ => true end.

Definition str_eqb (a b : pystr) : bool :=
  if list_eq_dec N.eq_dec a b then true else false.

(** An index of a slice, normalised against a sequence of length [n]:
    negative indices count from the end, then everything is clamped to
    [0..n]. *)
Definition slice_index (n i : Z) : Z :=
  if i <? 0 then Z.max (i + n) 0 else Z.min i n.

(** [s[start:stop]]. *)
Definition slice (s : pystr) (start stop : Z) : pystr :=
  let lo := slice_index (len s) start in
  let hi := slice_index (len s) stop in
  firstn (Z.to_nat (hi - lo)) (skipn (Z.to_nat lo) s).

Fixpoint startswith (s pre : pystr) : bool :=
  match pre, s with
  | [], _ => true
  | _ :: _, [] => false
  | p :: pre', c :: s' => (p =? c)%N && startswith s' pre'
  end.

(** [s.rfind(sub)]: the highest index at which [sub] occurs in [s], or -1. *)
Fixpoint rfind (s sub : pystr) : Z :=
  match s with
  | [] => if startswith [] sub then 0 else -1
  | _ :: s' =>
    let r := rfind s' sub in
    if 0 <=? r then 1 + r
    else if startswith s sub then 0 else -1
  end.

(** [sep.join(parts)]. *)
Fixpoint join (sep : pystr) (parts : list pystr) : pystr :=
  match parts with
  | [] => []
  | [p] => p
  | p :: rest => p ++ sep ++ join sep rest
  end.

Definition of_string (s : string) : pystr :=
  map (fun b => Byte.to_N b) (list_byte_of_string s).

(** [str(i)] / [f"{i}"] of an integer: its decimal digits. *)
Definition str_of_int (i : Z) : pystr :=
  of_string (DecimalString.NilZero.string_of_int (Z.to_int i)).

(** *** [pathlib] (POSIX flavour)

    [Path(p).name] is the last component of the path once empty and ["."]
    components are dropped; [Path(p).suffix] is the part of the name from its
    last dot on, provided the dot is neither the first nor the last
    character of the name. *)

Definition SLASH : codepoint := 0x2F%N.
Definition DOT : codepoint := 0x2E%N.

(** [p.split('/')] *)
Fixpoint split_slash (p : pystr) : list pystr :=
  match p with
  | [] => [[]]
  | c :: p' =>
    if (c =? SLASH)%N then [] :: split_slash p'
    else match split_slash p' with
         | [] => [[c]]
         | comp :: comps => (c :: comp) :: comps
         end
  end.

Definition path_parts (p : pystr) : list pystr :=
  filter (fun comp => truthy comp && negb (str_eqb comp [DOT])) (split_slash p).

Definition path_name (p : pystr) : pystr := last (path_parts p) [].

Definition path_suffix (p : pystr) : pystr :=
  let name := path_name p in
  let i := rfind name [DOT] in
  if (0 <? i) && (i <? len name - 1) then slice name i (len name) else [].

(** *** Floating point: [n * 0.3]

    The chunker compares an integer with the [float] product
    [chunk_size * 0.3].  The literal 0.3 denotes the double
    5404319552844595 / 2^54; the product is the exact product rounded to
    53 significant bits, ties to even, and Python compares an [int] with a
    [float] exactly.  Every quantity is carried as an integer multiple of
    2^-54. *)

(** Rounding of an integer to 53 significant bits (the result is an
    integer again); scaling by a power of two commutes with it. *)
Definition round53 (m : Z) : Z :=
  let a := Z.abs m in
  let e := Z.log2 a - 52 in
  if e <=? 0 then m
  else
    let q := Z.shiftr a e in
    let r := Z.land a (Z.ones e) in
    let half := Z.shiftl 1 (e - 1) in
    let q' := if (half <? r) || ((r =? half) && Z.odd q) then q + 1 else q in
    Z.sgn m * Z.shiftl q' e.

Definition DOUBLE_0_3 : Z := 5404319552844595.

(** [n * 0.3], in units of 2^-54. *)
Definition times_0_3 (n : Z) : Z := round53 (round53 n * DOUBLE_0_3).

(** [k > n * 0.3] for integers [k] and [n]. *)
Definition gt_times_0_3 (k n : Z) : bool := times_0_3 n <? k * 2 ^ 54.

End Py.

Import Py.

(* ================================================================== *)
(** ** Exceptions *)

Inductive exn_class : Type :=
| FileNotFoundError
| ValueError
| ImportError
| OSError           (* [OSError] itself, none of its subclasses above *)
| OtherException.   (* anything else an external collaborator raises *)

(** An exception instance; [exn_msg e] is [str(e)]. *)
Record exn : Type := raise_ { exn_cls : exn_class; exn_msg : pystr }.

Inductive result (A : Type) : Type :=
| Ok (a : A)
| Err (e : exn).
Arguments Ok {A} a.
Arguments Err {A} e.

Definition bind {A B} (c : result A) (k : A -> result B) : result B :=
  match c with
  | Ok a => k a
  | Err e => Err e
  end.

Notation "x <- c ;; k" := (bind c (fun x => k))
  (at level 61, c at next level, right associativity).

(** [try: body / except Exception as e: handler]. *)
Definition try_except {A} (body : result A) (handler : exn -> result A)
  : result A :=
  match body with
  | Ok a => Ok a
  | Err e => handler e
  end.

(* ================================================================== *)
(** ** External collaborators

    Everything the module reaches outside itself: the file system, the
    optional third-party packages (absent when the [import] fails), the
    codecs other than UTF-8, and [str.lower]. *)

Record World : Type := {
  (** [Path(p).exists()]: [True], [False], or the [OSError] of the
      underlying [stat] that [pathlib] does not take for "no such file"
      (a name that is too long, a directory that may not be searched) *)
  path_exists : pystr -> result bool;
  (** [Path(p).read_bytes()] *)
  read_bytes : pystr -> result bytes;
  (** [str.lower] *)
  str_lower : pystr -> pystr;
  (** PyMuPDF: the text of each page of the document, in page order *)
  fitz : option (pystr -> result (list pystr));
  (** [from_bytes(data).best()] and its [.encoding], when there is a match *)
  charset_normalizer : option (bytes -> result (option pystr));
  (** [chardet.detect(data)] and its ['encoding'] entry *)
  chardet : option (bytes -> result (option pystr));
  (** [data.decode(label, errors='replace')] for a label other than
      ['utf-8'] *)
  codecs : pystr -> bytes -> result pystr
}.

Definition NL : pystr := [0x0A%N].

(* ================================================================== *)
(** ** [_read_text_with_fallback] *)

Inductive detector : Type := CharsetNormalizer | Chardet.

(** [not encoding], for [encoding] a string or [None]. *)
Definition falsy (encoding : option pystr) : bool :=
  match encoding with
  | None => true
  | Some label => negb (truthy label)
  end.

(** [data.decode(encoding, errors='replace')] *)
Definition decode_replace (w : World) (encoding : pystr) (data : bytes)
  : result pystr :=
  if str_eqb encoding (lit "utf-8") then Ok (decode_utf8_replace data)
  else codecs w encoding data.

(** Lines 36-43: the first detector.  An exception (a failed import
    included) leaves [encoding] at [None]. *)
Definition try_charset_normalizer (w : World) (data : bytes) : option pystr :=
  match charset_normalizer w with
  | None => None
  | Some best =>
    match best data with
    | Ok (Some label) => if truthy label then Some label else None
    | Ok None => None
    | Err _ => None
    end
  end.

(** Lines 47-52: the second detector, entered with [encoding = None]. *)
Definition try_chardet (w : World) (data : bytes) : option pystr :=
  match chardet w with
  | None => None
  | Some detect =>
    match detect data with
    | Ok found => found
    | Err _ => None
    end
  end.

(** The function returns the decoded text together with the list of the
    detectors it consulted, in order. *)
Definition _read_text_with_fallback (w : World) (file_path : pystr)
  : list detector * result pystr :=
  match read_bytes w file_path with
  | Err e => ([], Err e)
  | Ok data =>
    match decode_utf8_strict data with
    | Some text => ([], Ok text)
    | None =>
      let encoding := try_charset_normalizer w data in
      let '(consulted, encoding) :=
        if falsy encoding
        then ([CharsetNormalizer; Chardet], try_chardet w data)
        else ([CharsetNormalizer], encoding) in
      let encoding :=
        match encoding with
        | Some label => if truthy label then label else lit "utf-8"
        | None => lit "utf-8"
        end in
      (consulted, decode_replace w encoding data)
    end
  end.

(* ================================================================== *)
(** ** [FileParser] *)

Module FileParser.

Definition SUPPORTED_EXTENSIONS : list pystr :=
  [lit ".pdf"; lit ".md"; lit ".markdown"; lit ".txt"].

(** [x in s] for a set of strings. *)
Definition mem (x : pystr) (s : list pystr) : bool := existsb (str_eqb x) s.

Definition _extract_from_pdf (w : World) (file_path : pystr) : result pystr :=
  match fitz w with
  | None =>
    Err (raise_ ImportError (lit "需要安装PyMuPDF: pip install PyMuPDF"))
  | Some open =>
    doc <- open file_path ;;
    let text_parts := filter (fun text => truthy (strip text)) doc in
    Ok (join (NL ++ NL) text_parts)
  end.

Definition _extract_from_md (w : World) (file_path : pystr) : result pystr :=
  snd (_read_text_with_fallback w file_path).

Definition _extract_from_txt (w : World) (file_path : pystr) : result pystr :=
  snd (_read_text_with_fallback w file_path).

Definition extract_text (w : World) (file_path : pystr) : result pystr :=
  exists_ <- path_exists w file_path ;;
  if negb exists_ then
    Err (raise_ FileNotFoundError (lit "文件不存在: " ++ file_path))
  else
    let suffix := str_lower w (path_suffix file_path) in
    if negb (mem suffix SUPPORTED_EXTENSIONS) then
      Err (raise_ ValueError (lit "不支持的文件格式: " ++ suffix))
    else if str_eqb suffix (lit ".pdf") then _extract_from_pdf w file_path
    else if mem suffix [lit ".md"; lit ".markdown"] then
      _extract_from_md w file_path
    else if str_eqb suffix (lit ".txt") then _extract_from_txt w file_path
    else Err (raise_ ValueError (lit "无法处理的文件格式: " ++ suffix)).

(** The body of the [for i, file_path in enumerate(file_paths, 1)] loop,
    with [all_texts] threaded through. *)
Fixpoint extract_loop (w : World) (i : Z) (file_paths : list pystr)
         (all_texts : list pystr) : result (list pystr) :=
  match file_paths with
  | [] => Ok all_texts
  | file_path :: rest =>
    all_texts' <-
      try_except
        (text <- extract_text w file_path ;;
         let filename := path_name file_path in
         Ok (all_texts ++
             [lit "=== 文档 " ++ str_of_int i ++ lit ": " ++ filename ++
              lit " ===" ++ NL ++ text]))
        (fun e =>
         Ok (all_texts ++
             [lit "=== 文档 " ++ str_of_int i ++ lit ": " ++ file_path ++
              lit " (提取失败: " ++ exn_msg e ++ lit ") ==="])) ;;
    extract_loop w (i + 1) rest all_texts'
  end.

Definition extract_from_multiple (w : World) (file_paths : list pystr)
  : result pystr :=
  all_texts <- extract_loop w 1 file_paths [] ;;
  Ok (join (NL ++ NL) all_texts).

End FileParser.

(* ================================================================== *)
(** ** [split_text_into_chunks] *)

Module Chunker.

(** The separators, in the order the [for] loop visits them. *)
Definition SEPARATORS : list pystr :=
  [lit "。"; lit "！"; lit "？";
   lit "." ++ NL; lit "!" ++ NL; lit "?" ++ NL;
   NL ++ NL;
   lit ". "; lit "! "; lit "? "].

(** The test of line 177 for one separator in the window
    [text[start:end]]: [last_sep != -1 and last_sep > chunk_size * 0.3]. *)
Definition accepts (window : pystr) (chunk_size : Z) (sep : pystr) : bool :=
  let last_sep := rfind window sep in
  negb (last_sep =? -1) && gt_times_0_3 last_sep chunk_size.

(** Lines 175-179: the [for sep in ...] loop with its [break]; the value is
    that of [end] when the loop is left. *)
Fixpoint search_boundary (seps : list pystr) (text : pystr)
         (start end_ chunk_size : Z) : Z :=
  match seps with
  | [] => end_
  | sep :: rest =>
    let last_sep := rfind (slice text start end_) sep in
    if negb (last_sep =? -1) && gt_times_0_3 last_sep chunk_size
    then start + last_sep + len sep
    else search_boundary rest text start end_ chunk_size
  end.

(** Lines 170-179: [end] as it stands when the chunk is cut. *)
Definition window_end (text : pystr) (start chunk_size : Z) : Z :=
  let end_ := start + chunk_size in
  if end_ <? len text
  then search_boundary SEPARATORS text start end_ chunk_size
  else end_.

(** The variables the [while] loop updates. *)
Record loop_state : Type := { start : Z; chunks : list pystr }.

(** Lines 170-186: one iteration. *)
Definition loop_body (text : pystr) (chunk_size overlap : Z)
           (st : loop_state) : loop_state :=
  let end_ := window_end text (start st) chunk_size in
  let chunk := strip (slice text (start st) end_) in
  {| start := if end_ <? len text then end_ - overlap else len text;
     chunks := if truthy chunk then chunks st ++ [chunk] else chunks st |}.

(** Lines 169-188: the [while start < len(text)] loop, run for at most
    [fuel] iterations; [None] when the loop is still running then. *)
Fixpoint while_loop (fuel : nat) (text : pystr) (chunk_size overlap : Z)
         (st : loop_state) : option (list pystr) :=
  match fuel with
  | O => None
  | S fuel' =>
    if start st <? len text
    then while_loop fuel' text chunk_size overlap
                    (loop_body text chunk_size overlap st)
    else Some (chunks st)
  end.

Definition split_text_into_chunks (fuel : nat) (text : pystr)
           (chunk_size overlap : Z) : option (list pystr) :=
  if len text <=? chunk_size then
    Some (if truthy (strip text) then [text] else [])
  else
    while_loop fuel text chunk_size overlap {| start := 0; chunks := [] |}.

(** The state after [n] iterations of the loop body. *)
Fixpoint iterate (n : nat) (text : pystr) (chunk_size overlap : Z)
         (st : loop_state) : loop_state :=
  match n with
  | O => st
  | S n' => iterate n' text chunk_size overlap
                    (loop_body text chunk_size overlap st)
  end.

End Chunker.

Import FileParser Chunker.

(* ================================================================== *)
(** * Statements and sample inputs

    Definitions the properties below are phrased with, and the concrete
    inputs they are evaluated on. *)

(** ** Texts for the chunker *)

(** A text with full-width and ASCII sentence ends. *)
Definition sample_text : pystr :=
  lit "第一句话。第二句话稍微长一些！ Then a sentence. Another one? Yes".

(** ["。"] occurs in the first ten characters, but too early to be
    accepted; [". "] occurs later in the same window. *)
Definition early_stop_text : pystr := lit "。aaaaa. bbbbbbbb".

(** Twenty characters with a ["。"] at index 4. *)
Definition stuck_text : pystr := lit "aaaa。aaaaaaaaaaaaaaa".

(** ** The boundary search, read as "first separator that occurs"

    The reading under which the search commits to the first separator that
    occurs in the window at all: if the rightmost occurrence of that
    separator fails the 30% test, the window keeps its hard cut. *)
Definition commits_to_first_occurring : Prop :=
  forall (text : pystr) (start chunk_size : Z) (pre post : list pystr)
         (sep : pystr),
    start + chunk_size < len text ->
    SEPARATORS = pre ++ sep :: post ->
    let window := slice text start (start + chunk_size) in
    forallb (fun s => rfind window s =? -1) pre = true ->
    rfind window sep <> -1 ->
    gt_times_0_3 (rfind window sep) chunk_size = false ->
    window_end text start chunk_size = start + chunk_size.

(** ** Strict against replacing decoding *)

(** How the strict and the replacing decoder relate on one input: the
    replacing decoder always yields a string; it is the strict decoder's
    string when there is one, and contains U+FFFD when there is none. *)
Definition agree (strict replacing : option pystr) : Prop :=
  exists r, replacing = Some r /\
            match strict with
            | Some s => r = s
            | None => In REPLACEMENT r
            end.

(** ** A small world to evaluate the extractor in *)

(** [str.lower] on ASCII letters. *)
Definition ascii_lower (s : pystr) : pystr :=
  map (fun c => if ((0x41 <=? c) && (c <=? 0x5A))%N then (c + 32)%N else c) s.

Definition byte_of (n : N) : byte :=
  match Byte.of_N n with Some b => b | None => x00 end.

(** Four files; the last one is Latin-1 text, ill-formed as UTF-8. *)
Definition sample_files : list (pystr * bytes) :=
  [(lit "docs/a.txt", list_byte_of_string "hi");
   (lit "docs/B.TXT", list_byte_of_string "你好");
   (lit "report.docx", list_byte_of_string "PK");
   (lit "cafe.md", map byte_of [0x63; 0x61; 0x66; 0xE9]%N)].

Fixpoint lookup (p : pystr) (files : list (pystr * bytes)) : option bytes :=
  match files with
  | [] => None
  | (q, data) :: rest => if str_eqb p q then Some data else lookup p rest
  end.

(** The longest file name the file system takes. *)
Definition NAME_MAX : Z := 255.

(** A file system holding [sample_files], on which [stat] fails with
    [ENAMETOOLONG] for a path with a component longer than [NAME_MAX];
    [Path.exists] lets that [OSError] through.  No PDF engine, no
    [charset_normalizer]; [chardet] is installed and reports nothing. *)
Definition sample_world : World :=
  {| path_exists := fun p =>
       if existsb (fun name => NAME_MAX <? len name) (path_parts p)
       then Err (raise_ OSError
                   (lit "[Errno 36] File name too long: '" ++ p ++ lit "'"))
       else Ok (match lookup p sample_files with
                | Some _ => true | None => false end);
     read_bytes := fun p => match lookup p sample_files with
                            | Some data => Ok data
                            | None => Err (raise_ FileNotFoundError
                                             (lit "[Errno 2] No such file"))
                            end;
     str_lower := ascii_lower;
     fitz := None;
     charset_normalizer := None;
     chardet := Some (fun _ => Ok None);
     codecs := fun label _ =>
                 Err (raise_ OtherException (lit "unknown encoding")) |}.

(** ** A detector that yields no label

    On [data] the detector is not installed ([None]), raises, finds nothing,
    or reports an empty label. *)
Definition silent (d : option (bytes -> result (option pystr)))
           (data : bytes) : bool :=
  match d with
  | None => true
  | Some detect =>
    match detect data with
    | Err _ => true
    | Ok None => true
    | Ok (Some label) => negb (truthy label)
    end
  end.

(** ** Formats

    The formats of the data model and the extension each is derived from. *)
Inductive SupportedFormat : Type := PDF | Markdown | PlainText.

Definition format_of_extension (ext : pystr) : option SupportedFormat :=
  if str_eqb ext (lit ".pdf") then Some PDF
  else if str_eqb ext (lit ".md") then Some Markdown
  else if str_eqb ext (lit ".markdown") then Some Markdown
  else if str_eqb ext (lit ".txt") then Some PlainText
  else None.

(** What [extract_text] does with an existing file of a given format. *)
Definition route (w : World) (ext : pystr) (format : option SupportedFormat)
           (file_path : pystr) : result pystr :=
  match format with
  | Some PDF => _extract_from_pdf w file_path
  | Some Markdown => _extract_from_md w file_path
  | Some PlainText => _extract_from_txt w file_path
  | None => Err (raise_ ValueError (lit "不支持的文件格式: " ++ ext))
  end.

(** ** Sections of the composite text

    The section the loop appends for the [i]-th path. *)
Definition section_of (w : World) (i : Z) (file_path : pystr) : pystr :=
  match extract_text w file_path with
  | Ok text =>
    lit "=== 文档 " ++ str_of_int i ++ lit ": " ++ path_name file_path ++
    lit " ===" ++ NL ++ text
  | Err e =>
    lit "=== 文档 " ++ str_of_int i ++ lit ": " ++ file_path ++
    lit " (提取失败: " ++ exn_msg e ++ lit ") ==="
  end.

Fixpoint sections_from (w : World) (i : Z) (file_paths : list pystr)
  : list pystr :=
  match file_paths with
  | [] => []
  | file_path :: rest =>
    section_of w i file_path :: sections_from w (i + 1) rest
  end.

(** A missing file whose name has 305 characters. *)
Definition overlong_path : pystr := repeat 0x61%N 300 ++ lit ".docx".

(** Two batches over [sample_world]: an existing file and a missing one,
    in either order. *)
Definition sample_paths : list pystr := [lit "docs/a.txt"; lit "missing.txt"].

Definition failing_first : list pystr := [lit "missing.txt"; lit "docs/a.txt"].

(** The integers [lo], [lo + 1], ..., [lo + n - 1]. *)
Fixpoint range_from (lo : Z) (n : nat) : list Z :=
  match n with
  | O => []
  | S n' => lo :: range_from (lo + 1) n'
  end.

(** ** Further sample inputs and notions *)

(** Whitespace only, longer than the chunk sizes it is used with. *)
Definition blank_text : pystr := repeat 0x20%N 25 ++ [0x0A; 0x0A; 0x09]%N.

(** A hundred times the letter [a]: no separator, no whitespace. *)
Definition plain_text : pystr := repeat 0x61%N 100.

(** The index [i] of [text] lies inside an occurrence of [chunk]. *)
Definition located (text chunk : pystr) (i : nat) : Prop :=
  exists pre post,
    text = pre ++ chunk ++ post /\
    (List.length pre <= i < List.length pre + List.length chunk)%nat.

(** Every non-whitespace character of [text] at an index below [bound] lies
    inside one of the [chunks]. *)
Definition covered (text : pystr) (chunks : list pystr) (bound : Z) : Prop :=
  forall (i : nat) (c : codepoint),
    nth_error text i = Some c -> Z.of_nat i < bound -> is_space c = false ->
    exists chunk, In chunk chunks /\ located text chunk i.

(** ** A world with detectors and a PDF engine *)

(** ISO 8859-1: every byte is the code point of the same number. *)
Definition latin1 (data : bytes) : pystr := map Byte.to_N data.

(** A PDF engine that knows two documents: three pages, the second of them
    blank, and the same pages without the blank one. *)
Definition sample_engine (p : pystr) : result (list pystr) :=
  if str_eqb p (lit "paper.PDF")
  then Ok [lit "Title"; [0x20; 0x0A]%N; lit "Body text"]
  else if str_eqb p (lit "clean.pdf")
  then Ok [lit "Title"; lit "Body text"]
  else Err (raise_ OtherException (lit "cannot open document")).

(** The files of [sample_world] and the two PDFs; the only codec besides
    UTF-8 is Latin-1. *)
Definition detector_world
           (cn cd : option (bytes -> result (option pystr))) : World :=
  {| path_exists := fun p =>
       if str_eqb p (lit "paper.PDF") || str_eqb p (lit "clean.pdf")
       then Ok true
       else path_exists sample_world p;
     read_bytes := read_bytes sample_world;
     str_lower := ascii_lower;
     fitz := Some sample_engine;
     charset_normalizer := cn;
     chardet := cd;
     codecs := fun label data =>
       if str_eqb label (lit "latin_1") then Ok (latin1 data)
       else Err (raise_ OtherException (lit "unknown encoding: " ++ label)) |}.

(** A detector that is installed and reports [label] on every input. *)
Definition reports (label : pystr)
  : option (bytes -> result (option pystr)) :=
  Some (fun _ => Ok (Some label)).

(* ================================================================== *)
(** * Properties *)

(** ** Strings *)

Example lit_doc : lit "文档 1" = [0x6587; 0x6863; 0x20; 0x31]%N.
Proof. reflexivity. Qed.

Example separators_code_points :
  SEPARATORS =
  [[0x3002]; [0xFF01]; [0xFF1F]; [0x2E; 0x0A]; [0x21; 0x0A]; [0x3F; 0x0A];
   [0x0A; 0x0A]; [0x2E; 0x20]; [0x21; 0x20]; [0x3F; 0x20]]%N.
Proof. reflexivity. Qed.

(** For every [chunk_size] from 1 to 600 and every index below it, the
    floating-point test [last_sep > chunk_size * 0.3] agrees with the exact
    comparison of [10 * last_sep] with [3 * chunk_size]. *)
Example threshold_exact_upto_600 :
  forallb (fun n =>
             forallb (fun k => Bool.eqb (gt_times_0_3 k n) (3 * n <? 10 * k))
                     (range_from 0 (Z.to_nat n)))
          (range_from 1 600) = true.
Proof. vm_compute. reflexivity. Qed.

Example threshold_default : gt_times_0_3 150 500 = false /\
                            gt_times_0_3 151 500 = true.
Proof. split; reflexivity. Qed.

Lemma len_nonneg (s : pystr) : 0 <= len s.
Proof. unfold len. lia. Qed.

Lemma len_app (s t : pystr) : len (s ++ t) = len s + len t.
Proof. unfold len. rewrite length_app. lia. Qed.

Lemma lstrip_length (s : pystr) : (List.length (lstrip s) <= List.length s)%nat.
Proof.
  induction s as [|c s IH]; simpl; [lia|].
  destruct (is_space c); simpl; lia.
Qed.

Lemma strip_len (s : pystr) : len (strip s) <= len s.
Proof.
  unfold strip, rstrip, len.
  rewrite length_rev.
  pose proof (lstrip_length (rev (lstrip s))) as H1.
  rewrite length_rev in H1.
  pose proof (lstrip_length s) as H2.
  lia.
Qed.

(** A slice is never longer than the distance between its bounds, whatever
    their signs. *)
Lemma slice_len (s : pystr) (a b : Z) :
  a <= b -> len (slice s a b) <= b - a.
Proof.
  intros Hab. unfold slice, len.
  set (n := Z.of_nat (List.length s)).
  pose proof (firstn_le_length
                (Z.to_nat (slice_index n b - slice_index n a))
                (skipn (Z.to_nat (slice_index n a)) s)) as Hf.
  assert (Hn : 0 <= n) by (subst n; lia).
  assert (Hd : slice_index n b - slice_index n a <= b - a).
  { unfold slice_index.
    destruct (Z.ltb_spec b 0), (Z.ltb_spec a 0); lia. }
  lia.
Qed.

Lemma startswith_length (pre s : pystr) :
  startswith s pre = true -> (List.length pre <= List.length s)%nat.
Proof.
  revert s. induction pre as [|p pre IH]; intros s H; simpl; [lia|].
  destruct s as [|c s]; simpl in H; [discriminate|].
  apply andb_prop in H as [_ H]. apply IH in H. simpl. lia.
Qed.

Lemma rfind_lower (s sub : pystr) : -1 <= rfind s sub.
Proof.
  induction s as [|c s IH]; cbn [rfind].
  - destruct (startswith [] sub); lia.
  - destruct (Z.leb_spec 0 (rfind s sub)); [lia|].
    destruct (startswith (c :: s) sub); lia.
Qed.

(** An occurrence reported by [rfind] lies inside the string. *)
Lemma rfind_upper (s sub : pystr) :
  0 <= rfind s sub -> rfind s sub + len sub <= len s.
Proof.
  induction s as [|c s IH]; cbn [rfind].
  - destruct (startswith [] sub) eqn:E; [|lia].
    apply startswith_length in E. unfold len. simpl in *. lia.
  - destruct (Z.leb_spec 0 (rfind s sub)) as [Hr|Hr].
    + intros _. specialize (IH Hr). unfold len in *. simpl List.length. lia.
    + destruct (startswith (c :: s) sub) eqn:E; [|lia].
      intros _. apply startswith_length in E. unfold len. lia.
Qed.

(** [rfind] does report an occurrence, and the last one. *)
Lemma rfind_occurs (s sub : pystr) :
  0 <= rfind s sub ->
  startswith (skipn (Z.to_nat (rfind s sub)) s) sub = true.
Proof.
  induction s as [|c s IH]; cbn [rfind].
  - destruct (startswith [] sub) eqn:E; [intros _; exact E|lia].
  - destruct (Z.leb_spec 0 (rfind s sub)) as [Hr|Hr].
    + intros _. replace (Z.to_nat (1 + rfind s sub))
        with (S (Z.to_nat (rfind s sub))) by lia.
      cbn [skipn]. exact (IH Hr).
    + destruct (startswith (c :: s) sub) eqn:E; [intros _; exact E|lia].
Qed.

Lemma rfind_rightmost (s sub : pystr) :
  forall k : nat,
    (k <= List.length s)%nat ->
    startswith (skipn k s) sub = true ->
    Z.of_nat k <= rfind s sub.
Proof.
  induction s as [|c s IH]; intros k Hk H; cbn [rfind].
  - cbn [List.length] in Hk. assert (k = O) by lia. subst k.
    cbn [skipn] in H. rewrite H. lia.
  - destruct k as [|k].
    + cbn [skipn] in H. rewrite H.
      destruct (Z.leb_spec 0 (rfind s sub)); lia.
    + cbn [skipn] in H. cbn [List.length] in Hk.
      assert (Hk' : (k <= List.length s)%nat) by lia.
      specialize (IH k Hk' H).
      destruct (Z.leb_spec 0 (rfind s sub)); lia.
Qed.

(** ** The chunker *)

Section WindowEnd.

Variables (text : pystr) (start chunk_size : Z).

(** The separator loop leaves [end] where it was or moves it back to just
    after an occurrence inside the window. *)
Lemma search_boundary_range (seps : list pystr) (end_ : Z) :
  start <= end_ ->
  start <= search_boundary seps text start end_ chunk_size <= end_.
Proof.
  intros Hse. induction seps as [|sep rest IH]; cbn [search_boundary]; [lia|].
  set (window := slice text start end_).
  destruct (negb (rfind window sep =? -1) &&
            gt_times_0_3 (rfind window sep) chunk_size) eqn:E; [|exact IH].
  apply andb_prop in E as [E _].
  apply negb_true_iff, Z.eqb_neq in E.
  pose proof (rfind_lower window sep).
  assert (H0 : 0 <= rfind window sep) by lia.
  pose proof (rfind_upper window sep H0).
  pose proof (slice_len text start end_ Hse). fold window in H2.
  pose proof (len_nonneg sep).
  lia.
Qed.

Lemma window_end_range :
  0 <= chunk_size ->
  start <= window_end text start chunk_size <= start + chunk_size.
Proof.
  intros Hc. unfold window_end.
  destruct (start + chunk_size <? len text).
  - apply search_boundary_range. lia.
  - lia.
Qed.

(** The loop, unrolled: a separator rejected by the test of line 177 is
    passed over, the first accepted one decides. *)
Lemma search_boundary_app (pre post : list pystr) (end_ : Z) :
  forallb (fun s => negb (accepts (slice text start end_) chunk_size s)) pre
    = true ->
  search_boundary (pre ++ post) text start end_ chunk_size =
  search_boundary post text start end_ chunk_size.
Proof.
  induction pre as [|s pre IH]; intros H; [reflexivity|].
  cbn [forallb] in H. apply andb_prop in H as [Hs Hpre].
  apply negb_true_iff in Hs. unfold accepts in Hs.
  cbn [app search_boundary]. rewrite Hs. exact (IH Hpre).
Qed.

End WindowEnd.

Lemma loop_body_chunks (P : pystr -> Prop) text chunk_size overlap st :
  P (strip (slice text (start st) (window_end text (start st) chunk_size))) ->
  Forall P (chunks st) ->
  Forall P (chunks (loop_body text chunk_size overlap st)).
Proof.
  intros Hnew Hall. unfold loop_body. cbn [chunks].
  destruct (truthy _); [|exact Hall].
  apply Forall_app. split; [exact Hall|]. constructor; [exact Hnew|constructor].
Qed.

Lemma chunk_len_bound text chunk_size s :
  0 <= chunk_size ->
  len (strip (slice text s (window_end text s chunk_size))) <= chunk_size.
Proof.
  intros Hc.
  pose proof (window_end_range text s chunk_size Hc) as [Hlo Hhi].
  pose proof (slice_len text s _ Hlo).
  pose proof (strip_len (slice text s (window_end text s chunk_size))).
  lia.
Qed.

(** The bound holds in every state the loop goes through, whether or not
    the loop ever stops. *)
Lemma iterate_chunks_bounded n text chunk_size overlap st :
  0 <= chunk_size ->
  Forall (fun c => len c <= chunk_size) (chunks st) ->
  Forall (fun c => len c <= chunk_size)
         (chunks (iterate n text chunk_size overlap st)).
Proof.
  intros Hc. revert st. induction n as [|n IH]; intros st Hst; [exact Hst|].
  cbn [iterate]. apply IH. apply loop_body_chunks; [|exact Hst].
  apply chunk_len_bound, Hc.
Qed.

Lemma while_loop_iterate fuel text chunk_size overlap st result :
  while_loop fuel text chunk_size overlap st = Some result ->
  exists n, result = chunks (iterate n text chunk_size overlap st).
Proof.
  revert st. induction fuel as [|fuel IH]; intros st H; [discriminate|].
  cbn [while_loop] in H. destruct (start st <? len text).
  - destruct (IH _ H) as [n Hn]. exists (S n). exact Hn.
  - injection H as <-. exists O. reflexivity.
Qed.

(** C10. With [chunk_size > 0] and [0 <= overlap < chunk_size], every chunk
    that [split_text_into_chunks(text, chunk_size, overlap)] collects has at
    most [chunk_size] characters: the boundary search only ever moves a
    window end backwards from [start + chunk_size].  This holds of the list
    [chunks] after any number of iterations of the loop, and so of every
    list the function returns. *)
Theorem chunks_bounded (text : pystr) (chunk_size overlap : Z) :
  0 < chunk_size ->
  0 <= overlap < chunk_size ->
  (forall n : nat,
      Forall (fun chunk => len chunk <= chunk_size)
             (chunks (iterate n text chunk_size overlap
                              {| start := 0; chunks := [] |})))
  /\
  (forall (fuel : nat) (result : list pystr),
      split_text_into_chunks fuel text chunk_size overlap = Some result ->
      Forall (fun chunk => len chunk <= chunk_size) result).
Proof.
  intros Hc _. split.
  - intros n. apply iterate_chunks_bounded; [lia|constructor].
  - intros fuel result H. unfold split_text_into_chunks in H.
    destruct (Z.leb_spec (len text) chunk_size) as [Hshort|Hlong].
    + injection H as <-. destruct (truthy (strip text)); repeat constructor.
      exact Hshort.
    + apply while_loop_iterate in H as [n ->].
      apply iterate_chunks_bounded; [lia|constructor].
Qed.

Lemma chunks_bounded_witness :
  exists result,
    split_text_into_chunks 40 sample_text 10 2 = Some result /\
    List.length result = 7%nat /\
    Forall (fun chunk => len chunk <= 10) result.
Proof.
  eexists. split; [vm_compute; reflexivity|]. split; [reflexivity|].
  assert (Hc : 0 < 10) by lia.
  assert (Ho : 0 <= 2 < 10) by lia.
  apply (proj2 (chunks_bounded sample_text 10 2 Hc Ho) 40%nat).
  vm_compute. reflexivity.
Defined.

(** *** Boundary search *)

(** C3, as stated, fails. In the window [text[0:10]] of
    ["。aaaaa. bbbbbbbb"] the highest-priority separator that occurs is
    ["。"], at index 0, which does not exceed 30% of 10; the loop goes on to
    the lower-priority [". "] at index 6 and moves the window end to 8. *)
Lemma commits_to_first_occurring_fails :
  rfind (slice early_stop_text 0 (0 + 10)) (lit "。") = 0 /\
  gt_times_0_3 0 10 = false /\
  window_end early_stop_text 0 10 = 8 /\
  ~ commits_to_first_occurring.
Proof.
  assert (E : window_end early_stop_text 0 10 = 8) by (vm_compute; reflexivity).
  split; [vm_compute; reflexivity|]. split; [reflexivity|].
  split; [exact E|].
  intros H.
  specialize (H early_stop_text 0 10 [] (skipn 1 SEPARATORS) (lit "。")).
  cbv zeta in H. rewrite E in H.
  assert (C : 8 = 0 + 10); [|discriminate C].
  apply H.
  - vm_compute. reflexivity.
  - reflexivity.
  - reflexivity.
  - vm_compute. discriminate.
  - vm_compute. reflexivity.
Qed.

(** C3 (amended). When the tentative end [start + chunk_size] is before the
    end of the text, the separators are tried in their fixed order and the
    search commits to the first one whose rightmost occurrence in the window
    lies at an index exceeding 30% of [chunk_size]: the window end becomes
    the position just after that occurrence.  A separator that does not
    occur, or whose rightmost occurrence fails the test, is passed over and
    the next one is tried; the hard cut [start + chunk_size] is kept only
    when no separator passes. *)
Theorem window_end_first_accepted (text : pystr) (start chunk_size : Z) :
  start + chunk_size < len text ->
  let window := slice text start (start + chunk_size) in
  (forall pre sep post,
      SEPARATORS = pre ++ sep :: post ->
      forallb (fun s => negb (accepts window chunk_size s)) pre = true ->
      accepts window chunk_size sep = true ->
      window_end text start chunk_size = start + rfind window sep + len sep)
  /\
  (forallb (fun s => negb (accepts window chunk_size s)) SEPARATORS = true ->
   window_end text start chunk_size = start + chunk_size).
Proof.
  intros Hlt window. apply Z.ltb_lt in Hlt.
  unfold window_end. rewrite Hlt. split.
  - intros pre sep post -> Hpre Hsep.
    rewrite (search_boundary_app _ _ _ pre (sep :: post) _ Hpre).
    cbn [search_boundary]. fold window.
    unfold accepts in Hsep. rewrite Hsep. reflexivity.
  - intros Hnone.
    pose proof (search_boundary_app text start chunk_size SEPARATORS []
                                    (start + chunk_size) Hnone) as E.
    rewrite app_nil_r in E. exact E.
Qed.

Lemma window_end_first_accepted_witness :
  window_end early_stop_text 0 10 =
  0 + rfind (slice early_stop_text 0 (0 + 10)) (lit ". ") + len (lit ". ").
Proof.
  assert (Hlt : 0 + 10 < len early_stop_text) by (vm_compute; reflexivity).
  apply (proj1 (window_end_first_accepted early_stop_text 0 10 Hlt)
               (firstn 7 SEPARATORS) (lit ". ") (skipn 8 SEPARATORS)).
  - reflexivity.
  - vm_compute. reflexivity.
  - vm_compute. reflexivity.
Defined.

(** *** Termination *)

(** On [stuck_text] with [chunk_size = 10] and [overlap = 5] the first
    window is cut after the ["。"] at index 4, so [end = 5] and the cursor
    comes back to [end - overlap = 0]. *)
Lemma stuck_body (cs : list pystr) :
  loop_body stuck_text 10 5 {| start := 0; chunks := cs |} =
  {| start := 0; chunks := cs ++ [lit "aaaa。"] |}.
Proof.
  unfold loop_body. cbn [start chunks].
  replace (window_end stuck_text 0 10) with 5 by (vm_compute; reflexivity).
  replace (strip (slice stuck_text 0 5)) with (lit "aaaa。")
    by (vm_compute; reflexivity).
  reflexivity.
Qed.

Lemma stuck_loop (fuel : nat) (cs : list pystr) :
  while_loop fuel stuck_text 10 5 {| start := 0; chunks := cs |} = None.
Proof.
  revert cs. induction fuel as [|fuel IH]; intros cs; [reflexivity|].
  cbn [while_loop start].
  replace (0 <? len stuck_text) with true by (vm_compute; reflexivity).
  rewrite stuck_body. apply IH.
Qed.

(** C4 fails on the code. With [chunk_size = 10 > 0] and
    [0 <= overlap = 5 < chunk_size], [split_text_into_chunks] never returns
    on the 20-character text ["aaaa。aaaaaaaaaaaaaaa"]: an iteration leaves
    the cursor [start] at 0, so no number of iterations ends the loop. *)
Theorem chunker_does_not_terminate :
  0 < 10 /\ 0 <= 5 < 10 /\
  start (loop_body stuck_text 10 5 {| start := 0; chunks := [] |}) = 0 /\
  forall fuel : nat, split_text_into_chunks fuel stuck_text 10 5 = None.
Proof.
  split; [lia|]. split; [lia|]. split.
  - rewrite stuck_body. reflexivity.
  - intros fuel. unfold split_text_into_chunks.
    replace (len stuck_text <=? 10) with false by (vm_compute; reflexivity).
    apply stuck_loop.
Qed.

(** *** Termination with a small overlap

    The loop does terminate when the overlap is at most a tenth of the
    chunk size, as with the default parameters 500 and 50: an accepted
    separator lies beyond index [chunk_size / 7]. *)

Lemma round53_half (m : Z) : 0 < m -> m <= 2 * round53 m.
Proof.
  intros Hm. unfold round53. rewrite Z.abs_eq by lia.
  set (e := Z.log2 m - 52).
  destruct (Z.leb_spec e 0) as [He|He]; [lia|].
  rewrite Z.sgn_pos by lia.
  rewrite Z.shiftr_div_pow2 by lia.
  rewrite Z.shiftl_mul_pow2 by lia.
  set (q := m / 2 ^ e).
  assert (Hp : 0 < 2 ^ e) by (apply Z.pow_pos_nonneg; lia).
  assert (Hq : 1 <= q).
  { apply Z.div_le_lower_bound; [lia|].
    pose proof (Z.log2_spec m Hm) as [Hlo _].
    assert (2 ^ e <= 2 ^ Z.log2 m) by (apply Z.pow_le_mono_r; lia).
    lia. }
  assert (Hne : 2 ^ e <> 0) by lia.
  pose proof (Z.div_mod m (2 ^ e) Hne) as Hdm. fold q in Hdm.
  pose proof (Z.mod_pos_bound m (2 ^ e) Hp) as Hr.
  destruct ((Z.shiftl 1 (e - 1) <? Z.land m (Z.ones e))
            || (Z.land m (Z.ones e) =? Z.shiftl 1 (e - 1)) && Z.odd q); nia.
Qed.

Lemma round53_small (n : Z) : 0 < n < 2 ^ 53 -> round53 n = n.
Proof.
  intros [H0 H1]. unfold round53. rewrite Z.abs_eq by lia.
  apply Z.log2_lt_pow2 in H1; [|exact H0].
  destruct (Z.leb_spec (Z.log2 n - 52) 0); [reflexivity|lia].
Qed.

(** A separator accepted by the float test lies beyond a seventh of the
    chunk size. *)
Lemma accepted_beyond_seventh (k n : Z) :
  0 < n < 2 ^ 53 -> gt_times_0_3 k n = true -> n < 7 * k.
Proof.
  intros Hn H. unfold gt_times_0_3, times_0_3 in H.
  rewrite (round53_small n Hn) in H. apply Z.ltb_lt in H.
  unfold DOUBLE_0_3 in H.
  assert (Hm : 0 < n * 5404319552844595) by lia.
  pose proof (round53_half _ Hm) as Hh.
  change (2 ^ 54) with 18014398509481984 in H.
  lia.
Qed.

Section Progress.

Variables (text : pystr) (chunk_size overlap : Z).
Hypothesis size_pos : 0 < chunk_size < 2 ^ 53.
Hypothesis overlap_nonneg : 0 <= overlap.
Hypothesis overlap_small : 10 * overlap <= chunk_size.

Lemma search_boundary_progress (seps : list pystr) (s end_ : Z) :
  s + overlap < end_ ->
  s + overlap < search_boundary seps text s end_ chunk_size.
Proof.
  intros He. induction seps as [|sep rest IH]; cbn [search_boundary];
    [exact He|].
  destruct (negb (rfind (slice text s end_) sep =? -1) &&
            gt_times_0_3 (rfind (slice text s end_) sep) chunk_size) eqn:E;
    [|exact IH].
  apply andb_prop in E as [_ E].
  apply (accepted_beyond_seventh _ _ size_pos) in E.
  pose proof (len_nonneg sep). lia.
Qed.

Lemma window_end_progress (s : Z) :
  s + overlap < window_end text s chunk_size.
Proof.
  unfold window_end. destruct (s + chunk_size <? len text).
  - apply search_boundary_progress. lia.
  - lia.
Qed.

(** Each iteration entered with [start < len(text)] moves [start] forward. *)
Lemma loop_body_advances (st : loop_state) :
  start st < len text ->
  start st < start (loop_body text chunk_size overlap st) <= len text.
Proof.
  intros Hlt. unfold loop_body. cbn [start].
  pose proof (window_end_progress (start st)).
  destruct (Z.ltb_spec (window_end text (start st) chunk_size) (len text)); lia.
Qed.

Lemma while_loop_terminates (m : nat) :
  forall st : loop_state,
    len text - start st <= Z.of_nat m ->
    exists fuel result,
      while_loop fuel text chunk_size overlap st = Some result.
Proof.
  induction m as [|m IH]; intros st Hm.
  - exists 1%nat, (chunks st). cbn [while_loop].
    destruct (Z.ltb_spec (start st) (len text)); [lia|reflexivity].
  - destruct (Z.ltb_spec (start st) (len text)) as [Hlt|Hge].
    + pose proof (loop_body_advances st Hlt) as Hadv.
      destruct (IH (loop_body text chunk_size overlap st)) as [fuel [r Hr]];
        [lia|].
      exists (S fuel), r. cbn [while_loop].
      apply Z.ltb_lt in Hlt. rewrite Hlt. exact Hr.
    + exists 1%nat, (chunks st). cbn [while_loop].
      apply Z.ltb_ge in Hge. rewrite Hge. reflexivity.
Qed.

(** With an overlap of at most a tenth of the chunk size the function
    returns. *)
Lemma split_terminates_small_overlap :
  exists fuel result,
    split_text_into_chunks fuel text chunk_size overlap = Some result.
Proof.
  unfold split_text_into_chunks. destruct (len text <=? chunk_size).
  - exists O. eexists. reflexivity.
  - apply (while_loop_terminates (Z.to_nat (len text))).
    cbn [start]. pose proof (len_nonneg text). lia.
Qed.

End Progress.

(** The default parameters are within that range. *)
Lemma split_terminates_default (text : pystr) :
  exists fuel result, split_text_into_chunks fuel text 500 50 = Some result.
Proof.
  apply split_terminates_small_overlap; [|lia|lia].
  split; [lia|reflexivity].
Qed.

(** *** Short texts *)

Lemma short_text_result (fuel : nat) (text : pystr) (chunk_size overlap : Z) :
  len text <= chunk_size ->
  split_text_into_chunks fuel text chunk_size overlap =
  Some (if truthy (strip text) then [text] else []).
Proof.
  intros H. apply Z.leb_le in H. unfold split_text_into_chunks.
  rewrite H. reflexivity.
Qed.

(** C2 fails on the code. For the three-character text [" a "] and
    [chunk_size = 500] the function returns the text as it is, [[" a "]],
    where the claim has the trimmed [["a"]]; the chunks cut by the loop are
    trimmed. *)
Theorem short_text_not_trimmed :
  forall fuel : nat,
    len (lit " a ") <= 500 /\
    truthy (strip (lit " a ")) = true /\
    split_text_into_chunks fuel (lit " a ") 500 50 = Some [lit " a "] /\
    strip (lit " a ") = lit "a" /\
    [lit " a "] <> [strip (lit " a ")].
Proof.
  intros fuel. repeat split; try (vm_compute; congruence).
Qed.

(** ** The UTF-8 codec *)

Lemma agree_emit c strict replacing :
  agree strict replacing -> agree (emit c strict) (emit c replacing).
Proof.
  intros [r [-> H]]. exists (c :: r). split; [reflexivity|].
  destruct strict as [s|]; cbn.
  - now subst.
  - now right.
Qed.

Lemma agree_bad strict replacing :
  agree strict replacing -> agree (bad false strict) (bad true replacing).
Proof.
  intros [r [-> _]]. exists (REPLACEMENT :: r). split; [reflexivity|].
  cbn. now left.
Qed.

Lemma agree_end : agree (Some []) (Some []).
Proof. exists []. now split. Qed.

Lemma utf8_decode_agree_upto (n : nat) :
  forall bs : bytes, (List.length bs <= n)%nat ->
    agree (utf8_decode false bs) (utf8_decode true bs).
Proof.
  induction n as [|n IH]; intros bs Hlen.
  - destruct bs; [apply agree_end|cbn in Hlen; lia].
  - destruct bs as [|x0 t0]; [apply agree_end|].
    cbn [List.length] in Hlen.
    cbn [utf8_decode]. cbv zeta.
    repeat
      match goal with
      | |- agree (emit _ _) (emit _ _) => apply agree_emit
      | |- agree (bad false _) (bad true _) => apply agree_bad
      | |- agree (Some []) (Some []) => apply agree_end
      | |- agree (utf8_decode false ?t) (utf8_decode true ?t) =>
          apply IH; cbn [List.length] in *; lia
      | |- context [if ?c then _ else _] => destruct c
      | |- context [match ?t with [] => _ | _ :: _ => _ end] =>
          destruct t; cbn [List.length] in *
      end.
Qed.

Lemma utf8_decode_agree (bs : bytes) :
  agree (utf8_decode false bs) (utf8_decode true bs).
Proof. apply (utf8_decode_agree_upto (List.length bs)). lia. Qed.

(** Decoding with replacement extends strict decoding. *)
Lemma replace_extends_strict (data : bytes) (text : pystr) :
  decode_utf8_strict data = Some text -> decode_utf8_replace data = text.
Proof.
  unfold decode_utf8_strict, decode_utf8_replace. intros H.
  destruct (utf8_decode_agree data) as [r [-> Hr]]. rewrite H in Hr. exact Hr.
Qed.

(** Where strict decoding fails, the replacing decoder has substituted. *)
Lemma replace_marks_errors (data : bytes) :
  decode_utf8_strict data = None -> In REPLACEMENT (decode_utf8_replace data).
Proof.
  unfold decode_utf8_strict, decode_utf8_replace. intros H.
  destruct (utf8_decode_agree data) as [r [-> Hr]]. rewrite H in Hr. exact Hr.
Qed.

(** ** [extract_text] *)

(** C6, as stated, fails. The path made of 300 letters [a] and the extension
    [.docx] references no existing file, yet [extract_text] does not raise
    [FileNotFoundError] on it: the name is longer than the file system
    takes, [Path.exists] raises [OSError] ("File name too long") instead of
    returning [False], and nothing in [extract_text] catches that. *)
Lemma overlong_missing_path_raises_oserror :
  lookup overlong_path sample_files = None /\
  extract_text sample_world overlong_path =
  Err (raise_ OSError
         (lit "[Errno 36] File name too long: '" ++ overlong_path ++ lit "'"))
  /\
  extract_text sample_world overlong_path <>
  Err (raise_ FileNotFoundError (lit "文件不存在: " ++ overlong_path)).
Proof.
  split; [vm_compute; reflexivity|]. split.
  - vm_compute. reflexivity.
  - vm_compute. discriminate.
Qed.

(** C6 (amended). For every path on which the existence test
    [Path(path).exists()] returns [False], [extract_text] raises
    [FileNotFoundError], whatever the extension of the path: the existence
    test comes before the extension is looked at. *)
Theorem missing_path_not_found (w : World) (file_path : pystr) :
  path_exists w file_path = Ok false ->
  extract_text w file_path =
  Err (raise_ FileNotFoundError (lit "文件不存在: " ++ file_path)).
Proof.
  intros H. unfold extract_text. rewrite H. reflexivity.
Qed.

Lemma missing_path_not_found_witness :
  mem (ascii_lower (path_suffix (lit "gone.docx"))) SUPPORTED_EXTENSIONS
    = false /\
  extract_text sample_world (lit "gone.docx") =
  Err (raise_ FileNotFoundError (lit "文件不存在: " ++ lit "gone.docx")).
Proof.
  split; [reflexivity|].
  apply (missing_path_not_found sample_world (lit "gone.docx")).
  reflexivity.
Defined.

(** An exception raised by the existence test leaves [extract_text] as it
    is. *)
Lemma existence_test_error_propagates (w : World) (file_path : pystr)
      (e : exn) :
  path_exists w file_path = Err e -> extract_text w file_path = Err e.
Proof.
  intros H. unfold extract_text. rewrite H. reflexivity.
Qed.

Lemma extract_text_routes (w : World) (file_path : pystr) :
  path_exists w file_path = Ok true ->
  let ext := str_lower w (path_suffix file_path) in
  extract_text w file_path = route w ext (format_of_extension ext) file_path.
Proof.
  intros H ext. unfold extract_text. rewrite H. cbn [bind negb]. fold ext.
  unfold format_of_extension, mem, SUPPORTED_EXTENSIONS. cbn [existsb].
  destruct (str_eqb ext (lit ".pdf")); [reflexivity|].
  destruct (str_eqb ext (lit ".md")); [reflexivity|].
  destruct (str_eqb ext (lit ".markdown")); [reflexivity|].
  destruct (str_eqb ext (lit ".txt")); reflexivity.
Qed.

Lemma format_of_supported (ext : pystr) :
  mem ext SUPPORTED_EXTENSIONS = false -> format_of_extension ext = None.
Proof.
  unfold format_of_extension, mem, SUPPORTED_EXTENSIONS. cbn [existsb].
  destruct (str_eqb ext (lit ".pdf")); [discriminate|].
  destruct (str_eqb ext (lit ".md")); [discriminate|].
  destruct (str_eqb ext (lit ".markdown")); [discriminate|].
  destruct (str_eqb ext (lit ".txt")); [discriminate|reflexivity].
Qed.

(** C7. For an existing file whose lower-cased extension is not one of
    [.pdf], [.md], [.markdown], [.txt], [extract_text] raises [ValueError]
    (the unsupported-format error).  What is done with an existing file is a
    function of its lower-cased extension alone: two existing paths whose
    extensions agree up to case are dispatched to the same format, or both
    rejected. *)
Theorem dispatch_by_lowercased_extension (w : World) :
  (forall file_path,
      path_exists w file_path = Ok true ->
      mem (str_lower w (path_suffix file_path)) SUPPORTED_EXTENSIONS = false ->
      extract_text w file_path =
      Err (raise_ ValueError
             (lit "不支持的文件格式: " ++ str_lower w (path_suffix file_path))))
  /\
  (forall p q,
      path_exists w p = Ok true -> path_exists w q = Ok true ->
      str_lower w (path_suffix p) = str_lower w (path_suffix q) ->
      let ext := str_lower w (path_suffix p) in
      extract_text w p = route w ext (format_of_extension ext) p /\
      extract_text w q = route w ext (format_of_extension ext) q).
Proof.
  split.
  - intros file_path Hex Hmem.
    rewrite (extract_text_routes w file_path Hex). cbv zeta.
    rewrite (format_of_supported _ Hmem). reflexivity.
  - intros p q Hp Hq Heq ext. split.
    + apply (extract_text_routes w p Hp).
    + subst ext. rewrite Heq. apply (extract_text_routes w q Hq).
Qed.

Lemma dispatch_by_lowercased_extension_witness :
  extract_text sample_world (lit "report.docx") =
  Err (raise_ ValueError (lit "不支持的文件格式: .docx"))
  /\
  (extract_text sample_world (lit "docs/a.txt") =
     route sample_world (lit ".txt") (Some PlainText) (lit "docs/a.txt") /\
   extract_text sample_world (lit "docs/B.TXT") =
     route sample_world (lit ".txt") (Some PlainText) (lit "docs/B.TXT")).
Proof.
  split.
  - apply (proj1 (dispatch_by_lowercased_extension sample_world)
                 (lit "report.docx")); reflexivity.
  - apply (proj2 (dispatch_by_lowercased_extension sample_world)
                 (lit "docs/a.txt") (lit "docs/B.TXT")); reflexivity.
Defined.

(** ** [_read_text_with_fallback] *)

(** C8. When the bytes of the file are well-formed UTF-8, the function
    returns their strict UTF-8 decoding and has consulted no detector,
    whatever detectors are installed. *)
Theorem utf8_input_decoded_strictly (w : World) (file_path : pystr)
        (data : bytes) (text : pystr) :
  read_bytes w file_path = Ok data ->
  decode_utf8_strict data = Some text ->
  _read_text_with_fallback w file_path = ([], Ok text).
Proof.
  intros Hread Hdec. unfold _read_text_with_fallback.
  rewrite Hread, Hdec. reflexivity.
Qed.

Lemma utf8_input_decoded_strictly_witness :
  _read_text_with_fallback sample_world (lit "docs/B.TXT") =
  ([], Ok [0x4F60; 0x597D]%N).
Proof.
  apply (utf8_input_decoded_strictly sample_world (lit "docs/B.TXT")
           (list_byte_of_string "你好")); reflexivity.
Defined.

Lemma silent_charset_normalizer (w : World) (data : bytes) :
  silent (charset_normalizer w) data = true ->
  try_charset_normalizer w data = None.
Proof.
  unfold silent, try_charset_normalizer.
  destruct (charset_normalizer w) as [best|]; [|reflexivity].
  destruct (best data) as [[label|]|e]; try reflexivity.
  intros H. apply negb_true_iff in H. rewrite H. reflexivity.
Qed.

Lemma silent_chardet (w : World) (data : bytes) :
  silent (chardet w) data = true -> falsy (try_chardet w data) = true.
Proof.
  unfold silent, try_chardet.
  destruct (chardet w) as [detect|]; [|reflexivity].
  destruct (detect data) as [[label|]|e]; try reflexivity.
  intros H. exact H.
Qed.

(** C9. When the bytes of the file are not well-formed UTF-8 and neither
    detector yields an encoding label (it is not installed, it raises, or
    it reports nothing), the function returns normally: its value is the
    UTF-8 decoding with replacement, in which U+FFFD occurs. *)
Theorem undetected_input_decoded_lossily (w : World) (file_path : pystr)
        (data : bytes) :
  read_bytes w file_path = Ok data ->
  decode_utf8_strict data = None ->
  silent (charset_normalizer w) data = true ->
  silent (chardet w) data = true ->
  snd (_read_text_with_fallback w file_path) = Ok (decode_utf8_replace data)
  /\ In REPLACEMENT (decode_utf8_replace data).
Proof.
  intros Hread Hdec HA HB. split; [|exact (replace_marks_errors data Hdec)].
  apply silent_charset_normalizer in HA. apply silent_chardet in HB.
  unfold _read_text_with_fallback. rewrite Hread, Hdec, HA.
  cbn [falsy snd]. unfold falsy in HB.
  destruct (try_chardet w data) as [label|].
  - apply negb_true_iff in HB. rewrite HB. reflexivity.
  - reflexivity.
Qed.

Lemma undetected_input_decoded_lossily_witness :
  snd (_read_text_with_fallback sample_world (lit "cafe.md")) =
  Ok [0x63; 0x61; 0x66; 0xFFFD]%N
  /\ In REPLACEMENT [0x63; 0x61; 0x66; 0xFFFD]%N.
Proof.
  apply (undetected_input_decoded_lossily sample_world (lit "cafe.md")
           (map byte_of [0x63; 0x61; 0x66; 0xE9]%N)); reflexivity.
Defined.

(** ** [extract_from_multiple] *)

Lemma extract_loop_sections (w : World) (file_paths : list pystr) :
  forall (i : Z) (all_texts : list pystr),
    extract_loop w i file_paths all_texts =
    Ok (all_texts ++ sections_from w i file_paths).
Proof.
  induction file_paths as [|p rest IH]; intros i acc; cbn [extract_loop].
  - cbn [sections_from]. now rewrite app_nil_r.
  - cbn [sections_from]. unfold section_of.
    destruct (extract_text w p) as [text|e]; cbn [bind try_except];
      rewrite IH, <- app_assoc; reflexivity.
Qed.

Lemma sections_from_length (w : World) (file_paths : list pystr) (i : Z) :
  List.length (sections_from w i file_paths) = List.length file_paths.
Proof.
  revert i. induction file_paths as [|p rest IH]; intros i; cbn; [|rewrite IH];
    reflexivity.
Qed.

Lemma sections_from_nth (w : World) (file_paths : list pystr) :
  forall (i : Z) (k : nat) (p : pystr),
    nth_error file_paths k = Some p ->
    nth_error (sections_from w i file_paths) k =
    Some (section_of w (i + Z.of_nat k) p).
Proof.
  induction file_paths as [|q rest IH]; intros i k p H.
  - destruct k; discriminate.
  - destruct k as [|k]; cbn [nth_error sections_from] in *.
    + injection H as ->. now rewrite Z.add_0_r.
    + rewrite (IH (i + 1) k p H). do 2 f_equal. lia.
Qed.

Lemma extract_from_multiple_sections (w : World) (file_paths : list pystr) :
  extract_from_multiple w file_paths =
  Ok (join (NL ++ NL) (sections_from w 1 file_paths)).
Proof.
  unfold extract_from_multiple. rewrite extract_loop_sections. reflexivity.
Qed.

(** C1, as stated, fails: the headers are not the English ones. For the
    paths ["docs/a.txt"] (an existing file holding ["hi"]) and
    ["missing.txt"] (no such file) the result is
    ["=== 文档 1: a.txt ===\nhi\n\n=== 文档 2: missing.txt (提取失败: 文件不存在: missing.txt) ==="],
    not the text with [Document] and [extraction failed]. *)
Lemma english_headers_not_produced :
  extract_from_multiple sample_world sample_paths =
  Ok (lit "=== 文档 1: a.txt ===" ++ NL ++ lit "hi" ++ NL ++ NL ++
      lit "=== 文档 2: missing.txt (提取失败: 文件不存在: missing.txt) ===")
  /\
  extract_from_multiple sample_world sample_paths <>
  Ok (lit "=== Document 1: a.txt ===" ++ NL ++ lit "hi" ++ NL ++ NL ++
      lit "=== Document 2: missing.txt (extraction failed: 文件不存在: missing.txt) ===").
Proof.
  split.
  - vm_compute. reflexivity.
  - vm_compute. discriminate.
Qed.

(** C1 (amended). For every list of paths, the string returned by
    [extract_from_multiple] is the join of exactly one section per path, and
    every section is formatted as follows: the section of the path at
    (1-based) position [i] is ["=== 文档 {i}: {basename} ===\n{text}"] when
    [extract_text] succeeds with [text], and
    ["=== 文档 {i}: {path} (提取失败: {error message}) ==="] when it raises. *)
Theorem composite_section_format (w : World) (file_paths : list pystr) :
  exists sections,
    extract_from_multiple w file_paths = Ok (join (NL ++ NL) sections) /\
    List.length sections = List.length file_paths /\
    forall (k : nat) (file_path : pystr),
      nth_error file_paths k = Some file_path ->
      nth_error sections k =
      Some match extract_text w file_path with
           | Ok text =>
             lit "=== 文档 " ++ str_of_int (Z.of_nat k + 1) ++ lit ": " ++
             path_name file_path ++ lit " ===" ++ NL ++ text
           | Err e =>
             lit "=== 文档 " ++ str_of_int (Z.of_nat k + 1) ++ lit ": " ++
             file_path ++ lit " (提取失败: " ++ exn_msg e ++ lit ") ==="
           end.
Proof.
  exists (sections_from w 1 file_paths).
  split; [apply extract_from_multiple_sections|].
  split; [apply sections_from_length|].
  intros k file_path Hk.
  rewrite (sections_from_nth w file_paths 1 k file_path Hk).
  unfold section_of. rewrite (Z.add_comm 1). reflexivity.
Qed.

Lemma composite_section_format_witness :
  exists sections,
    extract_from_multiple sample_world sample_paths =
      Ok (join (NL ++ NL) sections) /\
    List.length sections = 2%nat /\
    nth_error sections 0 =
    Some (lit "=== 文档 1: a.txt ===" ++ NL ++ lit "hi") /\
    nth_error sections 1 =
    Some (lit "=== 文档 2: missing.txt (提取失败: 文件不存在: missing.txt) ===").
Proof.
  destruct (composite_section_format sample_world sample_paths)
    as [sections [Hjoin [Hlen Hsec]]].
  exists sections. split; [exact Hjoin|]. split; [exact Hlen|]. split.
  - apply (Hsec 0%nat (lit "docs/a.txt")). reflexivity.
  - apply (Hsec 1%nat (lit "missing.txt")). reflexivity.
Defined.

(** C5. For every list of paths, [extract_from_multiple] returns a string
    and raises nothing.  The string is the join with ["\n\n"] of exactly one
    section per path, in the order of the paths; where [extract_text] raises
    on a path, the exception is caught, its message goes into the section of
    that path, and the paths after it get their sections all the same. *)
Theorem batch_is_fail_soft (w : World) (file_paths : list pystr) :
  exists sections,
    extract_from_multiple w file_paths = Ok (join (NL ++ NL) sections) /\
    List.length sections = List.length file_paths /\
    forall k file_path,
      nth_error file_paths k = Some file_path ->
      exists section,
        nth_error sections k = Some section /\
        (forall text,
            extract_text w file_path = Ok text ->
            exists header, section = header ++ NL ++ text) /\
        (forall e,
            extract_text w file_path = Err e ->
            section =
            lit "=== 文档 " ++ str_of_int (Z.of_nat k + 1) ++ lit ": " ++
            file_path ++ lit " (提取失败: " ++ exn_msg e ++ lit ") ===").
Proof.
  exists (sections_from w 1 file_paths).
  split; [apply extract_from_multiple_sections|].
  split; [apply sections_from_length|].
  intros k p Hk. exists (section_of w (1 + Z.of_nat k) p).
  split; [apply sections_from_nth, Hk|].
  unfold section_of. rewrite (Z.add_comm 1). split.
  - intros text ->.
    exists (lit "=== 文档 " ++ str_of_int (Z.of_nat k + 1) ++ lit ": " ++
            path_name p ++ lit " ===").
    now rewrite <- !app_assoc.
  - intros e ->. reflexivity.
Qed.

Lemma batch_is_fail_soft_witness :
  extract_text sample_world (lit "missing.txt") =
    Err (raise_ FileNotFoundError (lit "文件不存在: missing.txt")) /\
  exists sections,
    extract_from_multiple sample_world failing_first =
      Ok (join (NL ++ NL) sections) /\
    List.length sections = 2%nat /\
    exists section,
      nth_error sections 1 = Some section /\
      exists header, section = header ++ NL ++ lit "hi".
Proof.
  split; [reflexivity|].
  destruct (batch_is_fail_soft sample_world failing_first)
    as [sections [Hjoin [Hlen Hsec]]].
  exists sections. split; [exact Hjoin|]. split; [exact Hlen|].
  destruct (Hsec 1%nat (lit "docs/a.txt") eq_refl) as [section [Hn [Hok _]]].
  exists section. split; [exact Hn|].
  apply Hok. reflexivity.
Defined.

(* ================================================================== *)
(** * Further properties *)

(** ** More on strings *)

Lemma lstrip_split (s : pystr) :
  exists pre, s = pre ++ lstrip s /\ forallb is_space pre = true.
Proof.
  induction s as [|c s [pre [IH1 IH2]]].
  - exists []. now split.
  - cbn [lstrip]. destruct (is_space c) eqn:E.
    + exists (c :: pre). split.
      * cbn. now rewrite <- IH1.
      * cbn. now rewrite E, IH2.
    + exists []. now split.
Qed.

Lemma lstrip_head (s t : pystr) (c : codepoint) :
  lstrip s = c :: t -> is_space c = false.
Proof.
  induction s as [|d s IH]; cbn [lstrip]; [discriminate|].
  destruct (is_space d) eqn:E; [exact IH|].
  intros H. injection H as -> _. exact E.
Qed.

Lemma lstrip_idempotent (s : pystr) : lstrip (lstrip s) = lstrip s.
Proof.
  destruct (lstrip s) as [|c t] eqn:E; [reflexivity|].
  cbn [lstrip]. now rewrite (lstrip_head s t c E).
Qed.

Lemma rstrip_split (s : pystr) : exists suf, s = rstrip s ++ suf.
Proof.
  unfold rstrip. destruct (lstrip_split (rev s)) as [pre [H _]].
  exists (rev pre). rewrite <- rev_app_distr, <- H. now rewrite rev_involutive.
Qed.

Lemma rstrip_idempotent (s : pystr) : rstrip (rstrip s) = rstrip s.
Proof.
  unfold rstrip. now rewrite rev_involutive, lstrip_idempotent.
Qed.

(** Trimming the right end leaves a string that starts with a
    non-whitespace character that way. *)
Lemma lstrip_rstrip_lstrip (s : pystr) :
  lstrip (rstrip (lstrip s)) = rstrip (lstrip s).
Proof.
  destruct (lstrip s) as [|c t] eqn:E; [reflexivity|].
  apply lstrip_head in E.
  destruct (rstrip_split (c :: t)) as [suf H].
  destruct (rstrip (c :: t)) as [|d u]; [reflexivity|].
  cbn [app] in H. injection H as <- _.
  cbn [lstrip]. now rewrite E.
Qed.

Lemma strip_idempotent (s : pystr) : strip (strip s) = strip s.
Proof.
  unfold strip. now rewrite lstrip_rstrip_lstrip, rstrip_idempotent.
Qed.

Lemma strip_infix (s : pystr) : exists pre post, s = pre ++ strip s ++ post.
Proof.
  unfold strip. destruct (lstrip_split s) as [pre [H _]].
  destruct (rstrip_split (lstrip s)) as [post H'].
  exists pre, post. now rewrite <- H', <- H.
Qed.

Lemma in_lstrip (s : pystr) (c : codepoint) :
  In c s -> is_space c = false -> In c (lstrip s).
Proof.
  intros Hin Hc. induction s as [|d s IH]; [contradiction|].
  cbn [lstrip]. destruct (is_space d) eqn:E; [|exact Hin].
  destruct Hin as [->|Hin]; [congruence|]. exact (IH Hin).
Qed.

Lemma in_strip (s : pystr) (c : codepoint) :
  In c s -> is_space c = false -> In c (strip s).
Proof.
  intros Hin Hc. unfold strip, rstrip.
  apply in_rev. rewrite rev_involutive.
  apply in_lstrip; [|exact Hc].
  apply in_rev. rewrite rev_involutive.
  apply in_lstrip; assumption.
Qed.

Lemma truthy_in (s : pystr) (c : codepoint) : In c s -> truthy s = true.
Proof. destruct s; [contradiction|reflexivity]. Qed.

(** A non-empty trimmed string holds a non-whitespace character. *)
Lemma truthy_strip_nonspace (s : pystr) :
  truthy (strip s) = true ->
  exists c, In c s /\ is_space c = false.
Proof.
  unfold strip. intros H.
  destruct (rstrip (lstrip s)) as [|c t] eqn:E; [discriminate|].
  rewrite <- lstrip_rstrip_lstrip in E.
  pose proof (lstrip_head _ _ _ E) as Hc.
  exists c. split; [|exact Hc].
  destruct (strip_infix s) as [pre [post Hs]]. rewrite Hs.
  unfold strip. rewrite <- lstrip_rstrip_lstrip, E.
  apply in_or_app. right. now left.
Qed.

Lemma slice_infix (s : pystr) (a b : Z) :
  exists pre post, s = pre ++ slice s a b ++ post.
Proof.
  unfold slice.
  set (lo := Z.to_nat (slice_index (len s) a)).
  set (n := Z.to_nat (slice_index (len s) b - slice_index (len s) a)).
  exists (firstn lo s), (skipn n (skipn lo s)).
  now rewrite firstn_skipn, firstn_skipn.
Qed.

(** The character at an index between the bounds of a slice is in it. *)
Lemma in_slice (s : pystr) (a b : Z) (i : nat) (c : codepoint) :
  nth_error s i = Some c ->
  0 <= a <= Z.of_nat i -> Z.of_nat i < b ->
  In c (slice s a b).
Proof.
  intros Hi Ha Hb.
  assert (Hlen : (i < List.length s)%nat)
    by (apply nth_error_Some; congruence).
  unfold slice, len. set (n := Z.of_nat (List.length s)).
  assert (Hlo : slice_index n a = a).
  { unfold slice_index. destruct (Z.ltb_spec a 0); lia. }
  assert (Hhi : Z.of_nat i < slice_index n b).
  { unfold slice_index. destruct (Z.ltb_spec b 0); lia. }
  rewrite Hlo.
  apply (nth_error_In _ (i - Z.to_nat a)%nat).
  rewrite nth_error_firstn.
  replace (i - Z.to_nat a <? Z.to_nat (slice_index n b - a))%nat with true
    by (symmetry; apply Nat.ltb_lt; lia).
  rewrite nth_error_skipn.
  replace (Z.to_nat a + (i - Z.to_nat a))%nat with i by lia.
  exact Hi.
Qed.

Lemma rstrip_split_spaces (s : pystr) :
  exists suf, s = rstrip s ++ suf /\ forallb is_space suf = true.
Proof.
  unfold rstrip. destruct (lstrip_split (rev s)) as [pre [H Hsp]].
  exists (rev pre). split.
  - rewrite <- rev_app_distr, <- H. now rewrite rev_involutive.
  - apply forallb_forall. intros x Hx. apply in_rev in Hx.
    rewrite forallb_forall in Hsp. exact (Hsp x Hx).
Qed.

(** Trimming removes whitespace only, so a non-whitespace character keeps
    its place. *)
Lemma strip_locates (s : pystr) (j : nat) (c : codepoint) :
  nth_error s j = Some c -> is_space c = false -> located s (strip s) j.
Proof.
  intros Hj Hc. unfold strip.
  destruct (lstrip_split s) as [p [Hp Hpsp]].
  destruct (rstrip_split_spaces (lstrip s)) as [q [Hq Hqsp]].
  exists p, q. split; [now rewrite <- Hq, <- Hp|].
  rewrite forallb_forall in Hpsp, Hqsp.
  assert (Hs : s = p ++ rstrip (lstrip s) ++ q) by now rewrite <- Hq, <- Hp.
  set (m := rstrip (lstrip s)) in *.
  destruct (Nat.lt_ge_cases j (List.length p)) as [Hlt|Hge].
  - exfalso. rewrite Hs, nth_error_app1 in Hj by exact Hlt.
    apply nth_error_In, Hpsp in Hj. congruence.
  - split; [exact Hge|].
    destruct (Nat.lt_ge_cases j (List.length p + List.length m)) as [H|H];
      [exact H|exfalso].
    rewrite Hs, nth_error_app2 in Hj by exact Hge.
    rewrite nth_error_app2 in Hj by lia.
    apply nth_error_In, Hqsp in Hj. congruence.
Qed.

(** A non-whitespace character between the bounds of a window lies inside
    the trimmed window, which is therefore not empty. *)
Lemma window_locates (text : pystr) (a b : Z) (i : nat) (c : codepoint) :
  nth_error text i = Some c -> is_space c = false ->
  0 <= a <= Z.of_nat i -> Z.of_nat i < b ->
  located text (strip (slice text a b)) i /\
  truthy (strip (slice text a b)) = true.
Proof.
  intros Hi Hc Ha Hb.
  assert (Hin : In c (strip (slice text a b)))
    by (apply in_strip; [apply (in_slice text a b i c Hi); lia|exact Hc]).
  split; [|exact (truthy_in _ c Hin)].
  assert (Hlen : (i < List.length text)%nat)
    by (apply nth_error_Some; congruence).
  assert (Hw : nth_error (slice text a b) (i - Z.to_nat a) = Some c).
  { unfold slice, len. set (n := Z.of_nat (List.length text)).
    assert (Hlo : slice_index n a = a)
      by (unfold slice_index; destruct (Z.ltb_spec a 0); lia).
    assert (Hhi : Z.of_nat i < slice_index n b)
      by (unfold slice_index; destruct (Z.ltb_spec b 0); lia).
    rewrite Hlo, nth_error_firstn.
    replace (i - Z.to_nat a <? Z.to_nat (slice_index n b - a))%nat with true
      by (symmetry; apply Nat.ltb_lt; lia).
    rewrite nth_error_skipn.
    replace (Z.to_nat a + (i - Z.to_nat a))%nat with i by lia.
    exact Hi. }
  destruct (strip_locates _ _ _ Hw Hc) as [p [q [Hs Hpos]]].
  assert (Hlo : slice_index (len text) a = a)
    by (unfold slice_index, len; destruct (Z.ltb_spec a 0); lia).
  exists (firstn (Z.to_nat a) text ++ p),
         (q ++ skipn (Z.to_nat (slice_index (len text) b - a))
                     (skipn (Z.to_nat a) text)).
  split.
  - rewrite <- app_assoc.
    replace (p ++ strip (slice text a b) ++ q ++ _)
      with ((p ++ strip (slice text a b) ++ q) ++
            skipn (Z.to_nat (slice_index (len text) b - a))
                  (skipn (Z.to_nat a) text))
      by now rewrite <- !app_assoc.
    rewrite <- Hs. unfold slice at 1. rewrite Hlo.
    now rewrite firstn_skipn, firstn_skipn.
  - rewrite length_app, length_firstn.
    replace (Nat.min (Z.to_nat a) (List.length text)) with (Z.to_nat a) by lia.
    lia.
Qed.

(** ** More on the chunker *)

(** *** What every emitted chunk satisfies *)

Section EmittedChunks.

Variables (text : pystr) (chunk_size overlap : Z).
Variable P : pystr -> Prop.

(** [P] holds of every window's trimmed text that is not empty. *)
Hypothesis P_window :
  forall a b : Z, truthy (strip (slice text a b)) = true ->
                  P (strip (slice text a b)).

Lemma loop_body_emits (st : loop_state) :
  Forall P (chunks st) ->
  Forall P (chunks (loop_body text chunk_size overlap st)).
Proof.
  intros Hall. unfold loop_body. cbn [chunks].
  destruct (truthy _) eqn:E; [|exact Hall].
  apply Forall_app. split; [exact Hall|].
  constructor; [apply P_window, E|constructor].
Qed.

Lemma iterate_emits (n : nat) (st : loop_state) :
  Forall P (chunks st) ->
  Forall P (chunks (iterate n text chunk_size overlap st)).
Proof.
  revert st. induction n as [|n IH]; intros st Hst; [exact Hst|].
  cbn [iterate]. apply IH, loop_body_emits, Hst.
Qed.

Lemma while_loop_emits (fuel : nat) (st : loop_state) (result : list pystr) :
  Forall P (chunks st) ->
  while_loop fuel text chunk_size overlap st = Some result ->
  Forall P result.
Proof.
  intros Hst H. apply while_loop_iterate in H as [n ->].
  apply iterate_emits, Hst.
Qed.

End EmittedChunks.

Lemma chunks_never_blank_aux (fuel : nat) (text : pystr)
      (chunk_size overlap : Z) (result : list pystr) :
  split_text_into_chunks fuel text chunk_size overlap = Some result ->
  Forall (fun chunk => exists c, In c chunk /\ is_space c = false) result.
Proof.
  unfold split_text_into_chunks.
  destruct (len text <=? chunk_size).
  - intros H. injection H as <-.
    destruct (truthy (strip text)) eqn:E; constructor; [|constructor].
    apply truthy_strip_nonspace, E.
  - apply while_loop_emits; [|constructor].
    intros a b E.
    apply truthy_strip_nonspace. now rewrite strip_idempotent.
Qed.

(** X1. No chunk is blank. Every chunk of a list returned by
    [split_text_into_chunks], for any parameters, holds a non-whitespace
    character, so it is not empty after trimming. *)
Theorem chunks_never_blank (fuel : nat) (text : pystr)
        (chunk_size overlap : Z) (result : list pystr) :
  split_text_into_chunks fuel text chunk_size overlap = Some result ->
  Forall (fun chunk => truthy (strip chunk) = true /\
                       exists c, In c chunk /\ is_space c = false) result.
Proof.
  intros H. apply chunks_never_blank_aux in H.
  apply Forall_impl with (2 := H).
  intros chunk [c [Hin Hsp]]. split; [|now exists c].
  apply (truthy_in _ c), in_strip; assumption.
Qed.

Lemma chunks_never_blank_witness :
  exists result,
    split_text_into_chunks 40 sample_text 10 2 = Some result /\
    Forall (fun chunk => truthy (strip chunk) = true /\
                         exists c, In c chunk /\ is_space c = false) result.
Proof.
  eexists. split; [vm_compute; reflexivity|].
  apply (chunks_never_blank 40 sample_text 10 2).
  vm_compute. reflexivity.
Defined.

(** X2. When the text is longer than [chunk_size], every returned chunk is
    trimmed: stripping it again changes nothing. *)
Theorem long_text_chunks_trimmed (fuel : nat) (text : pystr)
        (chunk_size overlap : Z) (result : list pystr) :
  chunk_size < len text ->
  split_text_into_chunks fuel text chunk_size overlap = Some result ->
  Forall (fun chunk => strip chunk = chunk) result.
Proof.
  intros Hlong. unfold split_text_into_chunks.
  apply Z.leb_gt in Hlong. rewrite Hlong.
  apply while_loop_emits; [|constructor].
  intros a b _. apply strip_idempotent.
Qed.

Lemma long_text_chunks_trimmed_witness :
  exists result,
    split_text_into_chunks 40 sample_text 10 2 = Some result /\
    Forall (fun chunk => strip chunk = chunk) result.
Proof.
  eexists. split; [vm_compute; reflexivity|].
  apply (long_text_chunks_trimmed 40 sample_text 10 2).
  - vm_compute. reflexivity.
  - vm_compute. reflexivity.
Defined.

Lemma chunks_substrings_aux (fuel : nat) (text : pystr)
      (chunk_size overlap : Z) (result : list pystr) :
  split_text_into_chunks fuel text chunk_size overlap = Some result ->
  Forall (fun chunk => exists pre post, text = pre ++ chunk ++ post) result.
Proof.
  unfold split_text_into_chunks.
  destruct (len text <=? chunk_size).
  - intros H. injection H as <-.
    destruct (truthy (strip text)); constructor; [|constructor].
    exists [], []. now rewrite app_nil_r.
  - apply while_loop_emits; [|constructor].
    intros a b _.
    destruct (slice_infix text a b) as [p1 [q1 H1]].
    destruct (strip_infix (slice text a b)) as [p2 [q2 H2]].
    exists (p1 ++ p2), (q2 ++ q1).
    rewrite H1 at 1. rewrite H2 at 1. now rewrite <- !app_assoc.
Qed.

(** X3. Every returned chunk is a contiguous piece of the text. *)
Theorem chunks_are_substrings (fuel : nat) (text : pystr)
        (chunk_size overlap : Z) (result : list pystr) :
  split_text_into_chunks fuel text chunk_size overlap = Some result ->
  Forall (fun chunk => exists pre post, text = pre ++ chunk ++ post) result.
Proof. apply chunks_substrings_aux. Qed.

Lemma chunks_are_substrings_witness :
  exists result,
    split_text_into_chunks 40 sample_text 10 2 = Some result /\
    Forall (fun chunk => exists pre post, sample_text = pre ++ chunk ++ post)
           result.
Proof.
  eexists. split; [vm_compute; reflexivity|].
  apply (chunks_are_substrings 40 sample_text 10 2).
  vm_compute. reflexivity.
Defined.

(** X4. A text of whitespace only, of any length, yields no chunk. *)
Theorem blank_text_no_chunks (fuel : nat) (text : pystr)
        (chunk_size overlap : Z) (result : list pystr) :
  forallb is_space text = true ->
  split_text_into_chunks fuel text chunk_size overlap = Some result ->
  result = [].
Proof.
  intros Hblank H.
  pose proof (chunks_never_blank_aux fuel text chunk_size overlap result H)
    as Hnb.
  pose proof (chunks_substrings_aux fuel text chunk_size overlap result H)
    as Hsub.
  destruct result as [|chunk rest]; [reflexivity|exfalso].
  apply Forall_inv in Hnb. destruct Hnb as [c [Hc Hsp]].
  apply Forall_inv in Hsub. destruct Hsub as [pre [post Ht]].
  rewrite forallb_forall in Hblank.
  assert (Hin : In c text).
  { rewrite Ht. apply in_or_app. right. apply in_or_app. now left. }
  apply Hblank in Hin. congruence.
Qed.

Lemma blank_text_no_chunks_witness :
  exists result,
    split_text_into_chunks 10 blank_text 10 2 = Some result /\ result = [].
Proof.
  eexists. split; [vm_compute; reflexivity|].
  apply (blank_text_no_chunks 10 blank_text 10 2); reflexivity.
Defined.

(** *** Loops whose windows advance *)

Section Advancing.

Variables (text : pystr) (chunk_size overlap : Z).
Hypothesis overlap_nonneg : 0 <= overlap.

(** From a cursor inside the text, the window reaches beyond the overlap. *)
Hypothesis advancing :
  forall s : Z, 0 <= s < len text ->
                s + overlap < window_end text s chunk_size.

Lemma advancing_body (st : loop_state) :
  0 <= start st < len text ->
  start st < start (loop_body text chunk_size overlap st).
Proof.
  intros Hs. unfold loop_body. cbn [start].
  pose proof (advancing (start st) Hs).
  destruct (Z.ltb_spec (window_end text (start st) chunk_size) (len text)); lia.
Qed.

Lemma advancing_loop_terminates (m : nat) :
  forall st : loop_state,
    0 <= start st ->
    len text - start st <= Z.of_nat m ->
    exists fuel result,
      while_loop fuel text chunk_size overlap st = Some result.
Proof.
  induction m as [|m IH]; intros st H0 Hm.
  - exists 1%nat, (chunks st). cbn [while_loop].
    destruct (Z.ltb_spec (start st) (len text)); [lia|reflexivity].
  - destruct (Z.ltb_spec (start st) (len text)) as [Hlt|Hge].
    + pose proof (advancing_body st (conj H0 Hlt)) as Hadv.
      destruct (IH (loop_body text chunk_size overlap st)) as [fuel [r Hr]];
        [lia|lia|].
      exists (S fuel), r. cbn [while_loop].
      apply Z.ltb_lt in Hlt. rewrite Hlt. exact Hr.
    + exists 1%nat, (chunks st). cbn [while_loop].
      apply Z.ltb_ge in Hge. rewrite Hge. reflexivity.
Qed.

Lemma advancing_split_terminates :
  exists fuel result,
    split_text_into_chunks fuel text chunk_size overlap = Some result.
Proof.
  unfold split_text_into_chunks. destruct (len text <=? chunk_size).
  - exists O. eexists. reflexivity.
  - apply (advancing_loop_terminates (Z.to_nat (len text))).
    + cbn [start]. lia.
    + cbn [start]. pose proof (len_nonneg text). lia.
Qed.

(** One iteration extends what is covered to the end of its window, and
    the next window starts inside what is covered. *)
Lemma advancing_body_covers (st : loop_state) (bound : Z) :
  0 <= start st < len text ->
  start st <= bound ->
  covered text (chunks st) bound ->
  let st' := loop_body text chunk_size overlap st in
  let bound' := window_end text (start st) chunk_size in
  0 <= start st' /\ start st' <= bound' /\
  (start st' < len text -> covered text (chunks st') bound') /\
  (len text <= start st' -> covered text (chunks st') (len text)).
Proof.
  intros Hs Hb Hcov st' bound'.
  pose proof (advancing (start st) Hs) as Hadv. fold bound' in Hadv.
  assert (Hnew : covered text (chunks st') bound').
  { intros i c Hi Hlt Hc. subst st'. unfold loop_body. cbn [chunks].
    fold bound'.
    destruct (Z.ltb_spec (Z.of_nat i) bound) as [Hold|Hfresh].
    - destruct (Hcov i c Hi Hold Hc) as [chunk [Hin Hcin]].
      exists chunk. split; [|exact Hcin].
      destruct (truthy _); [apply in_or_app; now left|exact Hin].
    - destruct (window_locates text (start st) bound' i c Hi Hc) as [Hw Ht];
        [lia|lia|].
      rewrite Ht.
      exists (strip (slice text (start st) bound')). split; [|exact Hw].
      apply in_or_app. right. now left. }
  assert (Hst : start st' =
                if bound' <? len text then bound' - overlap else len text)
    by reflexivity.
  pose proof (len_nonneg text) as Hlen.
  revert Hst. destruct (Z.ltb_spec bound' (len text)) as [Hin|Hout];
    intros Hst.
  - split; [lia|]. split; [lia|].
    split; [intros _; exact Hnew|intros Hge; lia].
  - split; [lia|]. split; [lia|].
    split; [intros Hlt; lia|].
    intros _ i c Hi Hlt Hc. apply (Hnew i c Hi); [lia|exact Hc].
Qed.

Lemma advancing_loop_covers (fuel : nat) :
  forall (st : loop_state) (bound : Z) (result : list pystr),
    0 <= start st ->
    start st <= bound ->
    (start st < len text -> covered text (chunks st) bound) ->
    (len text <= start st -> covered text (chunks st) (len text)) ->
    while_loop fuel text chunk_size overlap st = Some result ->
    covered text result (len text).
Proof.
  induction fuel as [|fuel IH]; intros st bound result H0 Hb Hin Hout H;
    [discriminate|].
  cbn [while_loop] in H.
  destruct (Z.ltb_spec (start st) (len text)) as [Hlt|Hge].
  - destruct (advancing_body_covers st bound (conj H0 Hlt) Hb (Hin Hlt))
      as [H0' [Hb' [Hin' Hout']]].
    exact (IH _ _ _ H0' Hb' Hin' Hout' H).
  - injection H as <-. exact (Hout Hge).
Qed.

Lemma advancing_split_covers (fuel : nat) (result : list pystr) :
  split_text_into_chunks fuel text chunk_size overlap = Some result ->
  covered text result (len text).
Proof.
  intros H. unfold split_text_into_chunks in H.
  destruct (len text <=? chunk_size).
  - injection H as <-. intros i c Hi Hlt Hc.
    rewrite (truthy_in _ c (in_strip text c (nth_error_In _ _ Hi) Hc)).
    exists text. split; [now left|].
    exists [], []. split; [now rewrite app_nil_r|].
    cbn [List.length]. unfold len in Hlt. lia.
  - apply (advancing_loop_covers fuel _ 0 result) in H; [exact H|..].
    + cbn [start]. lia.
    + cbn [start]. lia.
    + intros _ j d _ Hj. lia.
    + cbn [start]. intros Hz j d Hj Hjlt. lia.
Qed.

End Advancing.

(** *** When the loop terminates, and what it then covers *)

(** X5. With [0 <= overlap], [10 * overlap <= chunk_size] and
    [chunk_size < 2^53] (the defaults 500 and 50 among them) the function
    returns for every text. *)
Theorem terminates_with_small_overlap (text : pystr)
        (chunk_size overlap : Z) :
  0 < chunk_size < 2 ^ 53 ->
  0 <= overlap ->
  10 * overlap <= chunk_size ->
  exists fuel result,
    split_text_into_chunks fuel text chunk_size overlap = Some result.
Proof.
  intros Hc Ho Hs. apply advancing_split_terminates.
  intros s _. apply window_end_progress; assumption.
Qed.

Lemma terminates_with_small_overlap_witness :
  exists fuel result,
    split_text_into_chunks fuel stuck_text 10 1 = Some result.
Proof.
  apply (terminates_with_small_overlap stuck_text 10 1); [|lia|lia].
  split; [lia|reflexivity].
Defined.

(** X6. Under the same conditions nothing but whitespace is lost: every
    non-whitespace character of the text lies, at its own position, inside
    an occurrence of one of the returned chunks. *)
Theorem small_overlap_covers_text (fuel : nat) (text : pystr)
        (chunk_size overlap : Z) (result : list pystr) :
  0 < chunk_size < 2 ^ 53 ->
  0 <= overlap ->
  10 * overlap <= chunk_size ->
  split_text_into_chunks fuel text chunk_size overlap = Some result ->
  forall (i : nat) (c : codepoint),
    nth_error text i = Some c -> is_space c = false ->
    exists chunk pre post,
      In chunk result /\
      text = pre ++ chunk ++ post /\
      (List.length pre <= i < List.length pre + List.length chunk)%nat.
Proof.
  intros Hc Ho Hs H i c Hi Hsp.
  assert (Hcov : covered text result (len text)).
  { apply (advancing_split_covers text chunk_size overlap Ho) with (fuel := fuel);
      [|exact H].
    intros s _. apply window_end_progress; assumption. }
  assert (Hlt : Z.of_nat i < len text).
  { unfold len. assert (i < List.length text)%nat
      by (apply nth_error_Some; congruence). lia. }
  destruct (Hcov i c Hi Hlt Hsp) as [chunk [Hin [pre [post Hloc]]]].
  exists chunk, pre, post. split; [exact Hin|exact Hloc].
Qed.

Lemma small_overlap_covers_text_witness :
  exists result,
    split_text_into_chunks 40 sample_text 10 1 = Some result /\
    exists chunk pre post,
      In chunk result /\
      sample_text = pre ++ chunk ++ post /\
      (List.length pre <= 17 < List.length pre + List.length chunk)%nat.
Proof.
  assert (Hc : 0 < 10 < 2 ^ 53) by (split; [lia|reflexivity]).
  assert (Ho : 0 <= 1) by lia.
  assert (Hs : 10 * 1 <= 10) by lia.
  eexists. split; [vm_compute; reflexivity|].
  apply (small_overlap_covers_text 40 sample_text 10 1 _ Hc Ho Hs)
    with (c := 0x68%N).
  - vm_compute. reflexivity.
  - reflexivity.
  - reflexivity.
Defined.

Lemma startswith_split (s sub : pystr) :
  startswith s sub = true -> exists rest, s = sub ++ rest.
Proof.
  revert s. induction sub as [|p sub IH]; intros s H.
  - exists s. reflexivity.
  - destruct s as [|c s]; cbn [startswith] in H; [discriminate|].
    apply andb_prop in H as [Hc H]. apply N.eqb_eq in Hc. subst p.
    destruct (IH s H) as [rest ->]. exists rest. reflexivity.
Qed.

Lemma startswith_app_r (s t sub : pystr) :
  startswith s sub = true -> startswith (s ++ t) sub = true.
Proof.
  revert s. induction sub as [|p sub IH]; intros s H.
  - destruct (s ++ t); reflexivity.
  - destruct s as [|c s]; cbn [startswith] in H; [discriminate|].
    apply andb_prop in H as [Hc H].
    cbn [app startswith]. now rewrite Hc, (IH s H).
Qed.

(** A string that does not occur in [s] occurs in no piece of [s]. *)
Lemma rfind_absent_infix (s sub pre w post : pystr) :
  rfind s sub = -1 -> s = pre ++ w ++ post -> rfind w sub = -1.
Proof.
  intros Habs Hs.
  pose proof (rfind_lower w sub) as Hlow.
  destruct (Z.eq_dec (rfind w sub) (-1)) as [E|E]; [exact E|exfalso].
  assert (H0 : 0 <= rfind w sub) by lia.
  pose proof (rfind_occurs w sub H0) as Hocc.
  pose proof (rfind_upper w sub H0) as Hup.
  pose proof (len_nonneg sub) as Hsub.
  set (k := Z.to_nat (rfind w sub)) in *.
  assert (Hk : (k <= List.length w)%nat) by (unfold len in Hup; lia).
  assert (Hsk : skipn (List.length pre + k) s = skipn k w ++ post).
  { rewrite Hs, skipn_app, skipn_all2 by lia.
    replace (List.length pre + k - List.length pre)%nat with k by lia.
    rewrite skipn_app.
    replace (k - List.length w)%nat with O by lia. reflexivity. }
  pose proof (rfind_rightmost s sub (List.length pre + k)%nat) as Hr.
  rewrite Hsk in Hr.
  assert (Hlen : (List.length pre + k <= List.length s)%nat).
  { rewrite Hs, !length_app. lia. }
  specialize (Hr Hlen (startswith_app_r _ _ _ Hocc)). lia.
Qed.

Lemma search_boundary_none (seps : list pystr) (text : pystr)
      (s end_ chunk_size : Z) :
  forallb (fun sep => rfind text sep =? -1) seps = true ->
  search_boundary seps text s end_ chunk_size = end_.
Proof.
  induction seps as [|sep rest IH]; intros H; [reflexivity|].
  cbn [forallb] in H. apply andb_prop in H as [Hsep Hrest].
  apply Z.eqb_eq in Hsep. cbn [search_boundary].
  destruct (slice_infix text s end_) as [pre [post Hs]].
  rewrite (rfind_absent_infix text sep pre _ post Hsep Hs).
  cbn [Z.eqb negb andb]. exact (IH Hrest).
Qed.

(** X7. On a text in which none of the separators occurs, every window is
    the hard cut [text[start:start + chunk_size]], and the function returns
    whenever [chunk_size > 0] and [0 <= overlap < chunk_size]. *)
Theorem plain_text_hard_cuts (text : pystr) (chunk_size overlap : Z) :
  forallb (fun sep => rfind text sep =? -1) SEPARATORS = true ->
  0 < chunk_size ->
  0 <= overlap < chunk_size ->
  (forall s : Z, window_end text s chunk_size = s + chunk_size) /\
  exists fuel result,
    split_text_into_chunks fuel text chunk_size overlap = Some result.
Proof.
  intros Hplain Hc Ho.
  assert (Hw : forall s : Z, window_end text s chunk_size = s + chunk_size).
  { intros s. unfold window_end.
    destruct (s + chunk_size <? len text); [|reflexivity].
    apply search_boundary_none, Hplain. }
  split; [exact Hw|].
  apply advancing_split_terminates. intros s _. rewrite Hw. lia.
Qed.

Lemma plain_text_hard_cuts_witness :
  (forall s : Z, window_end plain_text s 10 = s + 10) /\
  exists fuel result,
    split_text_into_chunks fuel plain_text 10 2 = Some result.
Proof.
  apply (plain_text_hard_cuts plain_text 10 2); [|lia|lia].
  vm_compute. reflexivity.
Defined.

Lemma search_boundary_after_start (seps : list pystr) (text : pystr)
      (s end_ chunk_size : Z) :
  forallb truthy seps = true ->
  s < end_ ->
  s < search_boundary seps text s end_ chunk_size.
Proof.
  intros Hne He. induction seps as [|sep rest IH]; [exact He|].
  cbn [forallb] in Hne. apply andb_prop in Hne as [Hsep Hrest].
  cbn [search_boundary].
  destruct (negb (rfind (slice text s end_) sep =? -1) &&
            gt_times_0_3 (rfind (slice text s end_) sep) chunk_size) eqn:E;
    [|exact (IH Hrest)].
  apply andb_prop in E as [E _]. apply negb_true_iff, Z.eqb_neq in E.
  pose proof (rfind_lower (slice text s end_) sep).
  destruct sep as [|c sep]; [discriminate|].
  unfold len. cbn [List.length]. lia.
Qed.

(** X8. With [overlap = 0] the function returns for every text and every
    [chunk_size > 0]: a window always ends after its start, and the next
    one begins where it ended. *)
Theorem terminates_without_overlap (text : pystr) (chunk_size : Z) :
  0 < chunk_size ->
  exists fuel result,
    split_text_into_chunks fuel text chunk_size 0 = Some result.
Proof.
  intros Hc. apply advancing_split_terminates. intros s _.
  rewrite Z.add_0_r. unfold window_end.
  destruct (s + chunk_size <? len text); [|lia].
  apply search_boundary_after_start; [reflexivity|lia].
Qed.

Lemma terminates_without_overlap_witness :
  exists fuel result,
    split_text_into_chunks fuel stuck_text 10 0 = Some result.
Proof.
  apply (terminates_without_overlap stuck_text 10). lia.
Defined.

(** X9. A soft cut falls right after the separator: when, with
    [chunk_size > 0], the boundary search accepts [sep] for the window
    starting at [start >= 0], the
    untrimmed window [text[start:end]] ends with [sep]. *)
Theorem soft_cut_ends_with_separator (text : pystr) (start chunk_size : Z)
        (pre post : list pystr) (sep : pystr) :
  0 <= start ->
  0 < chunk_size ->
  start + chunk_size < len text ->
  SEPARATORS = pre ++ sep :: post ->
  let window := slice text start (start + chunk_size) in
  forallb (fun s => negb (accepts window chunk_size s)) pre = true ->
  accepts window chunk_size sep = true ->
  exists body,
    slice text start (window_end text start chunk_size) = body ++ sep.
Proof.
  intros H0 Hpos Hlt Hseps window Hpre Hsep.
  assert (Hend : window_end text start chunk_size =
                 start + rfind window sep + len sep).
  { unfold window_end. apply Z.ltb_lt in Hlt. rewrite Hlt, Hseps.
    rewrite (search_boundary_app _ _ _ pre (sep :: post) _ Hpre).
    cbn [search_boundary]. fold window.
    unfold accepts in Hsep. rewrite Hsep. reflexivity. }
  rewrite Hend.
  unfold accepts in Hsep. apply andb_prop in Hsep as [Hfound _].
  apply negb_true_iff, Z.eqb_neq in Hfound.
  pose proof (rfind_lower window sep) as Hlow.
  assert (Hk : 0 <= rfind window sep) by lia.
  pose proof (rfind_upper window sep Hk) as Hup.
  pose proof (rfind_occurs window sep Hk) as Hocc.
  apply startswith_split in Hocc as [rest Hrest].
  pose proof (len_nonneg sep) as Hsl.
  set (k := rfind window sep) in *.
  assert (Hcs : 0 <= chunk_size) by lia.
  assert (Hab : start <= start + chunk_size) by lia.
  pose proof (slice_len text start (start + chunk_size) Hab) as Hwl.
  fold window in Hwl.
  (* both slices are prefixes of [text[start:]] *)
  assert (Hwin : window = firstn (Z.to_nat chunk_size)
                                 (skipn (Z.to_nat start) text)).
  { unfold window, slice, slice_index, len.
    pose proof (len_nonneg text) as Hn. unfold len in Hn, Hlt.
    destruct (Z.ltb_spec start 0); [lia|].
    destruct (Z.ltb_spec (start + chunk_size) 0); [lia|].
    rewrite !Z.min_l by lia. f_equal. lia. }
  assert (Hcut : slice text start (start + k + len sep) =
                 firstn (Z.to_nat (k + len sep))
                        (skipn (Z.to_nat start) text)).
  { unfold slice, slice_index.
    pose proof (len_nonneg text) as Hn.
    destruct (Z.ltb_spec start 0); [lia|].
    destruct (Z.ltb_spec (start + k + len sep) 0); [lia|].
    rewrite !Z.min_l by lia. f_equal. lia. }
  rewrite Hcut.
  assert (Hkw : (Z.to_nat (k + len sep) <= List.length window)%nat)
    by (unfold len in *; lia).
  replace (firstn (Z.to_nat (k + len sep)) (skipn (Z.to_nat start) text))
    with (firstn (Z.to_nat (k + len sep)) window).
  2:{ rewrite Hwin, firstn_firstn. f_equal. unfold len in *. lia. }
  exists (firstn (Z.to_nat k) window).
  rewrite <- (firstn_skipn (Z.to_nat k) window) at 1.
  rewrite Hrest, firstn_app.
  rewrite length_firstn.
  replace (Nat.min (Z.to_nat k) (List.length window)) with (Z.to_nat k) by lia.
  rewrite firstn_firstn.
  replace (Nat.min (Z.to_nat (k + len sep)) (Z.to_nat k)) with (Z.to_nat k)
    by lia.
  f_equal.
  replace (Z.to_nat (k + len sep) - Z.to_nat k)%nat with (List.length sep)
    by (unfold len; lia).
  rewrite firstn_app, firstn_all, Nat.sub_diag. cbn [firstn].
  now rewrite app_nil_r.
Qed.

Lemma soft_cut_ends_with_separator_witness :
  exists body,
    slice early_stop_text 0 (window_end early_stop_text 0 10) =
    body ++ lit ". ".
Proof.
  apply (soft_cut_ends_with_separator early_stop_text 0 10
           (firstn 7 SEPARATORS) (skipn 8 SEPARATORS) (lit ". ")).
  - lia.
  - lia.
  - vm_compute. reflexivity.
  - reflexivity.
  - vm_compute. reflexivity.
  - vm_compute. reflexivity.
Defined.

(** ** More on [_read_text_with_fallback] *)

(** X10. When the bytes are not well-formed UTF-8 and [charset_normalizer]
    reports a non-empty encoding, the text is decoded with that encoding and
    [chardet] is not consulted. *)
Theorem charset_normalizer_label_wins (w : World) (file_path : pystr)
        (data : bytes) (best : bytes -> result (option pystr))
        (label : pystr) :
  read_bytes w file_path = Ok data ->
  decode_utf8_strict data = None ->
  charset_normalizer w = Some best ->
  best data = Ok (Some label) ->
  truthy label = true ->
  _read_text_with_fallback w file_path =
  ([CharsetNormalizer], decode_replace w label data).
Proof.
  intros Hread Hdec Hcn Hbest Hlabel.
  unfold _read_text_with_fallback, try_charset_normalizer.
  rewrite Hread, Hdec, Hcn, Hbest, Hlabel. unfold falsy.
  rewrite Hlabel. cbn [negb]. rewrite Hlabel. reflexivity.
Qed.

Lemma charset_normalizer_label_wins_witness :
  _read_text_with_fallback
    (detector_world (reports (lit "latin_1")) (reports (lit "utf-8")))
    (lit "cafe.md") =
  ([CharsetNormalizer], Ok [0x63; 0x61; 0x66; 0xE9]%N).
Proof.
  apply (charset_normalizer_label_wins
           (detector_world (reports (lit "latin_1")) (reports (lit "utf-8")))
           (lit "cafe.md") (map byte_of [0x63; 0x61; 0x66; 0xE9]%N)
           (fun _ => Ok (Some (lit "latin_1"))) (lit "latin_1"));
    reflexivity.
Defined.

(** X11. When the bytes are not well-formed UTF-8 and [charset_normalizer]
    yields no label, [chardet] is consulted next, and a non-empty encoding
    it reports is the one the text is decoded with. *)
Theorem chardet_label_used_second (w : World) (file_path : pystr)
        (data : bytes) (detect : bytes -> result (option pystr))
        (label : pystr) :
  read_bytes w file_path = Ok data ->
  decode_utf8_strict data = None ->
  silent (charset_normalizer w) data = true ->
  chardet w = Some detect ->
  detect data = Ok (Some label) ->
  truthy label = true ->
  _read_text_with_fallback w file_path =
  ([CharsetNormalizer; Chardet], decode_replace w label data).
Proof.
  intros Hread Hdec HA Hcd Hdet Hlabel.
  apply silent_charset_normalizer in HA.
  unfold _read_text_with_fallback, try_chardet.
  rewrite Hread, Hdec, HA, Hcd, Hdet. cbn [falsy].
  rewrite Hlabel. reflexivity.
Qed.

Lemma chardet_label_used_second_witness :
  _read_text_with_fallback
    (detector_world None (reports (lit "latin_1"))) (lit "cafe.md") =
  ([CharsetNormalizer; Chardet], Ok [0x63; 0x61; 0x66; 0xE9]%N).
Proof.
  apply (chardet_label_used_second
           (detector_world None (reports (lit "latin_1")))
           (lit "cafe.md") (map byte_of [0x63; 0x61; 0x66; 0xE9]%N)
           (fun _ => Ok (Some (lit "latin_1"))) (lit "latin_1"));
    reflexivity.
Defined.

(** X12. The decoding with a detected encoding is not guarded: when the
    label a detector reported is one the codec machinery rejects, the
    exception raised by [data.decode] leaves
    [_read_text_with_fallback]. *)
Theorem rejected_label_raises (w : World) (file_path : pystr)
        (data : bytes) (label : pystr) (e : exn) :
  read_bytes w file_path = Ok data ->
  decode_utf8_strict data = None ->
  try_charset_normalizer w data = Some label \/
  (try_charset_normalizer w data = None /\
   try_chardet w data = Some label /\ truthy label = true) ->
  str_eqb label (lit "utf-8") = false ->
  codecs w label data = Err e ->
  snd (_read_text_with_fallback w file_path) = Err e.
Proof.
  intros Hread Hdec Hlabel Hne Hcodec.
  assert (Hdecode : decode_replace w label data = Err e)
    by (unfold decode_replace; now rewrite Hne).
  unfold _read_text_with_fallback. rewrite Hread, Hdec.
  destruct Hlabel as [HA|[HA [HB Ht]]].
  - assert (Ht : truthy label = true).
    { unfold try_charset_normalizer in HA.
      destruct (charset_normalizer w) as [best|]; [|discriminate].
      destruct (best data) as [[l|]|]; try discriminate.
      destruct (truthy l) eqn:E; [|discriminate].
      injection HA as <-. exact E. }
    rewrite HA. unfold falsy. rewrite Ht. cbn [negb snd]. rewrite Ht.
    exact Hdecode.
  - rewrite HA, HB. cbn [falsy snd]. rewrite Ht. exact Hdecode.
Qed.

Lemma rejected_label_raises_witness :
  snd (_read_text_with_fallback
         (detector_world (reports (lit "x-user-defined")) None)
         (lit "cafe.md")) =
  Err (raise_ OtherException (lit "unknown encoding: x-user-defined")).
Proof.
  apply (rejected_label_raises
           (detector_world (reports (lit "x-user-defined")) None)
           (lit "cafe.md") (map byte_of [0x63; 0x61; 0x66; 0xE9]%N)
           (lit "x-user-defined")).
  - reflexivity.
  - reflexivity.
  - left. reflexivity.
  - reflexivity.
  - reflexivity.
Defined.

(** X13. When neither detector yields a label, the function returns the
    UTF-8 decoding with replacement of the file's bytes, whether or not
    they are well-formed UTF-8: on well-formed input the strict and the
    replacing decoder agree. *)
Theorem silent_detectors_lossy_decode (w : World) (file_path : pystr)
        (data : bytes) :
  read_bytes w file_path = Ok data ->
  silent (charset_normalizer w) data = true ->
  silent (chardet w) data = true ->
  snd (_read_text_with_fallback w file_path) = Ok (decode_utf8_replace data).
Proof.
  intros Hread HA HB.
  apply silent_charset_normalizer in HA. apply silent_chardet in HB.
  unfold _read_text_with_fallback. rewrite Hread.
  destruct (decode_utf8_strict data) as [text|] eqn:Hdec.
  - cbn [snd]. now rewrite (replace_extends_strict data text Hdec).
  - rewrite HA. cbn [falsy snd]. unfold falsy in HB.
    destruct (try_chardet w data) as [label|].
    + apply negb_true_iff in HB. rewrite HB. reflexivity.
    + reflexivity.
Qed.

Lemma silent_detectors_lossy_decode_witness :
  snd (_read_text_with_fallback sample_world (lit "docs/B.TXT")) =
  Ok (decode_utf8_replace (list_byte_of_string "你好")).
Proof.
  apply (silent_detectors_lossy_decode sample_world (lit "docs/B.TXT"));
    reflexivity.
Defined.

(** ** More on [FileParser] *)

Lemma str_eqb_eq (a b : pystr) : str_eqb a b = true -> a = b.
Proof.
  unfold str_eqb. destruct (list_eq_dec N.eq_dec a b); [trivial|discriminate].
Qed.

(** X14. Markdown is not parsed: for an existing file whose lower-cased
    extension is [.md], [.markdown] or [.txt] and whose bytes are
    well-formed UTF-8, [extract_text] returns exactly the decoded
    content. *)
Theorem text_formats_returned_verbatim (w : World) (file_path : pystr)
        (data : bytes) (text : pystr) :
  path_exists w file_path = Ok true ->
  mem (str_lower w (path_suffix file_path))
      [lit ".md"; lit ".markdown"; lit ".txt"] = true ->
  read_bytes w file_path = Ok data ->
  decode_utf8_strict data = Some text ->
  extract_text w file_path = Ok text.
Proof.
  intros Hex Hext Hread Hdec.
  assert (Hraw : snd (_read_text_with_fallback w file_path) = Ok text).
  { unfold _read_text_with_fallback. now rewrite Hread, Hdec. }
  rewrite (extract_text_routes w file_path Hex). cbv zeta.
  set (ext := str_lower w (path_suffix file_path)) in *.
  unfold mem in Hext. cbn [existsb] in Hext.
  unfold format_of_extension.
  destruct (str_eqb ext (lit ".pdf")) eqn:Epdf.
  - apply str_eqb_eq in Epdf. rewrite Epdf in Hext. discriminate Hext.
  - destruct (str_eqb ext (lit ".md")); [exact Hraw|].
    destruct (str_eqb ext (lit ".markdown")); [exact Hraw|].
    destruct (str_eqb ext (lit ".txt")); [exact Hraw|discriminate Hext].
Qed.

Lemma text_formats_returned_verbatim_witness :
  extract_text sample_world (lit "docs/B.TXT") = Ok [0x4F60; 0x597D]%N.
Proof.
  apply (text_formats_returned_verbatim sample_world (lit "docs/B.TXT")
           (list_byte_of_string "你好")); reflexivity.
Defined.

(** X15. Without PyMuPDF, [extract_text] on an existing file with
    extension [.pdf] (in any case) raises [ImportError] with the
    instruction to install the package. *)
Theorem pdf_without_engine (w : World) (file_path : pystr) :
  path_exists w file_path = Ok true ->
  str_lower w (path_suffix file_path) = lit ".pdf" ->
  fitz w = None ->
  extract_text w file_path =
  Err (raise_ ImportError (lit "需要安装PyMuPDF: pip install PyMuPDF")).
Proof.
  intros Hex Hext Hfitz.
  rewrite (extract_text_routes w file_path Hex). cbv zeta. rewrite Hext.
  change (format_of_extension (lit ".pdf")) with (Some PDF).
  cbn [route]. unfold _extract_from_pdf. now rewrite Hfitz.
Qed.

Lemma pdf_without_engine_witness :
  extract_text
    {| path_exists := fun _ => Ok true;
       read_bytes := read_bytes sample_world;
       str_lower := ascii_lower;
       fitz := None;
       charset_normalizer := None;
       chardet := None;
       codecs := codecs sample_world |}
    (lit "scans/Paper.PDF") =
  Err (raise_ ImportError (lit "需要安装PyMuPDF: pip install PyMuPDF")).
Proof.
  apply pdf_without_engine; reflexivity.
Defined.

Lemma join_infix (sep x : pystr) (parts : list pystr) :
  In x parts -> exists pre post, join sep parts = pre ++ x ++ post.
Proof.
  induction parts as [|p rest IH]; [contradiction|].
  intros [->|Hin].
  - destruct rest as [|q rest].
    + exists [], []. cbn. now rewrite app_nil_r.
    + exists [], (sep ++ join sep (q :: rest)). reflexivity.
  - destruct (IH Hin) as [pre [post H]].
    destruct rest as [|q rest]; [contradiction|].
    exists (p ++ sep ++ pre), post.
    cbn [join] in *. rewrite H. now rewrite <- !app_assoc.
Qed.

(** X16. No page with text is lost: when the PDF engine opens the document,
    the text of every page that is not blank is a contiguous piece of what
    [_extract_from_pdf] returns. *)
Theorem pdf_keeps_nonblank_pages (w : World) (file_path : pystr)
        (open : pystr -> result (list pystr)) (doc : list pystr)
        (page : pystr) :
  fitz w = Some open ->
  open file_path = Ok doc ->
  In page doc ->
  truthy (strip page) = true ->
  exists text pre post,
    _extract_from_pdf w file_path = Ok text /\ text = pre ++ page ++ post.
Proof.
  intros Hfitz Hopen Hin Hpage.
  unfold _extract_from_pdf. rewrite Hfitz, Hopen. cbn [bind].
  destruct (join_infix (NL ++ NL) page
              (filter (fun text => truthy (strip text)) doc))
    as [pre [post H]].
  { apply filter_In. split; assumption. }
  eexists. exists pre, post. split; [reflexivity|exact H].
Qed.

Lemma pdf_keeps_nonblank_pages_witness :
  exists text pre post,
    _extract_from_pdf (detector_world None None) (lit "paper.PDF") = Ok text /\
    text = pre ++ lit "Body text" ++ post.
Proof.
  apply (pdf_keeps_nonblank_pages (detector_world None None) (lit "paper.PDF")
           sample_engine [lit "Title"; [0x20; 0x0A]%N; lit "Body text"]
           (lit "Body text")).
  - reflexivity.
  - reflexivity.
  - right. right. left. reflexivity.
  - reflexivity.
Defined.

(** X17. Blank pages leave no trace: a document extracts to the same text
    as the document without one of its blank pages (no empty paragraph, no
    extra separator). *)
Theorem pdf_ignores_blank_pages (w : World) (p q : pystr)
        (open : pystr -> result (list pystr))
        (before after : list pystr) (blank : pystr) :
  fitz w = Some open ->
  open p = Ok (before ++ blank :: after) ->
  open q = Ok (before ++ after) ->
  truthy (strip blank) = false ->
  _extract_from_pdf w p = _extract_from_pdf w q.
Proof.
  intros Hfitz Hp Hq Hblank.
  unfold _extract_from_pdf. rewrite Hfitz, Hp, Hq. cbn [bind].
  rewrite !filter_app. cbn [filter]. now rewrite Hblank.
Qed.

Lemma pdf_ignores_blank_pages_witness :
  _extract_from_pdf (detector_world None None) (lit "paper.PDF") =
  _extract_from_pdf (detector_world None None) (lit "clean.pdf").
Proof.
  apply (pdf_ignores_blank_pages (detector_world None None)
           (lit "paper.PDF") (lit "clean.pdf") sample_engine
           [lit "Title"] [lit "Body text"] [0x20; 0x0A]%N); reflexivity.
Defined.

Lemma sections_from_app (w : World) (ps qs : list pystr) :
  forall i : Z,
    sections_from w i (ps ++ qs) =
    sections_from w i ps ++ sections_from w (i + Z.of_nat (List.length ps)) qs.
Proof.
  induction ps as [|p ps IH]; intros i.
  - cbn. now rewrite Z.add_0_r.
  - cbn [app sections_from List.length]. rewrite IH. cbn [app].
    do 3 f_equal. lia.
Qed.

Lemma join_app_prefix (sep : pystr) (xs ys : list pystr) :
  exists rest, join sep (xs ++ ys) = join sep xs ++ rest.
Proof.
  induction xs as [|x xs [rest IH]].
  - exists (join sep ys). reflexivity.
  - destruct xs as [|x' xs].
    + destruct ys as [|y ys].
      * exists []. cbn. now rewrite app_nil_r.
      * exists (sep ++ join sep (y :: ys)). reflexivity.
    + exists rest. cbn [app join] in *. rewrite IH.
      now rewrite <- !app_assoc.
Qed.

(** X18. Paths added at the end of a batch do not change what comes before:
    the text returned for [file_paths] is a prefix of the text returned for
    [file_paths ++ more]. *)
Theorem batch_output_is_prefix (w : World) (file_paths more : list pystr)
        (text : pystr) :
  extract_from_multiple w file_paths = Ok text ->
  exists rest, extract_from_multiple w (file_paths ++ more) = Ok (text ++ rest).
Proof.
  rewrite !extract_from_multiple_sections, sections_from_app.
  intros H. injection H as <-.
  destruct (join_app_prefix (NL ++ NL) (sections_from w 1 file_paths)
              (sections_from w (1 + Z.of_nat (List.length file_paths)) more))
    as [rest Hrest].
  exists rest. now rewrite Hrest.
Qed.

Lemma batch_output_is_prefix_witness :
  exists rest,
    extract_from_multiple sample_world (sample_paths ++ [lit "cafe.md"]) =
    Ok ((lit "=== 文档 1: a.txt ===" ++ NL ++ lit "hi" ++ NL ++ NL ++
         lit "=== 文档 2: missing.txt (提取失败: 文件不存在: missing.txt) ===")
        ++ rest).
Proof.
  apply (batch_output_is_prefix sample_world sample_paths [lit "cafe.md"]).
  vm_compute. reflexivity.
Defined.

(** *** An overlap as large as the chunk size *)

Lemma while_loop_held_back (text : pystr) (chunk_size overlap : Z) :
  0 < chunk_size < len text ->
  chunk_size <= overlap ->
  forall (fuel : nat) (st : loop_state),
    start st <= 0 ->
    while_loop fuel text chunk_size overlap st = None.
Proof.
  intros Hc Ho. induction fuel as [|fuel IH]; intros st Hst; [reflexivity|].
  cbn [while_loop].
  replace (start st <? len text) with true by (symmetry; apply Z.ltb_lt; lia).
  apply IH. unfold loop_body. cbn [start].
  assert (H0 : 0 <= chunk_size) by lia.
  pose proof (window_end_range text (start st) chunk_size H0) as Hr.
  destruct (Z.ltb_spec (window_end text (start st) chunk_size) (len text));
    lia.
Qed.

(** X19. With [overlap >= chunk_size > 0] the function never returns on a
    text longer than [chunk_size]: the cursor never gets past 0. *)
Theorem overlap_not_below_size_hangs (text : pystr) (chunk_size overlap : Z) :
  0 < chunk_size < len text ->
  chunk_size <= overlap ->
  forall fuel : nat,
    split_text_into_chunks fuel text chunk_size overlap = None.
Proof.
  intros Hc Ho fuel. unfold split_text_into_chunks.
  replace (len text <=? chunk_size) with false
    by (symmetry; apply Z.leb_gt; lia).
  apply while_loop_held_back; cbn [start]; lia.
Qed.

Lemma overlap_not_below_size_hangs_witness :
  split_text_into_chunks 1000 plain_text 10 10 = None.
Proof.
  apply (overlap_not_below_size_hangs plain_text 10 10); [|lia].
  split; [lia|reflexivity].
Defined.
